(** * CxxSwizzle sample program: sampler, render worker, display loop

    A shallow embedding of [sample/main.cpp]: the texture sampler
    [sampler2D::sample], the scan of the render thread, the command line
    and top level of [main], the consumer side of the frame handshake and
    the two-thread handshake protocol, followed by the properties of the
    specification stated and settled on these definitions. *)

From Stdlib Require Import ZArith List Bool String Ascii Lia.
From Stdlib Require Import QArith Qcanon Qround Qcabs Lqa.
From Stdlib Require Import Floats.SpecFloat.
Import ListNotations.
Close Scope Qc_scope.
Local Open Scope Z_scope.

(** ** The scalar type of the sandbox

    [main.cpp] is written against [float_type], which [use_scalar.h] or
    [use_simd.h] (neither is part of the sources at hand) binds to [float]
    or to a batch of floats.  The operations the program applies to it are
    collected in one interface; it is instantiated below with IEEE-754
    binary32, the arithmetic the program runs on, and with exact rational
    arithmetic, the arithmetic in which the specification states its
    algebraic laws. *)

Class Scalar (T : Type) : Type := {
  of_int : Z -> T;            (* static_cast<float>(int), integer literals *)
  half : T;                   (* the literal 0.5f *)
  fadd : T -> T -> T;
  fsub : T -> T -> T;
  fmul : T -> T -> T;
  fdiv : T -> T -> T;
  ffloor : T -> T;
  fabs : T -> T;
  fltb : T -> T -> bool;      (* operator< *)
  to_uint : T -> Z            (* static_cast<uint_type>(raw_float_type) *)
}.

Declare Scope glsl_scope.
Delimit Scope glsl_scope with glsl.
Infix "+" := fadd : glsl_scope.
Infix "-" := fsub : glsl_scope.
Infix "*" := fmul : glsl_scope.
Infix "/" := fdiv : glsl_scope.
Infix "<?" := fltb : glsl_scope.

Record vec2 (T : Type) : Type := mk_vec2 { vx : T; vy : T }.
Record vec4 (T : Type) : Type := mk_vec4 { cr : T; cg : T; cb : T; ca : T }.
Arguments mk_vec2 {T} _ _.
Arguments vx {T} _.
Arguments vy {T} _.
Arguments mk_vec4 {T} _ _ _ _.
Arguments cr {T} _.
Arguments cg {T} _.
Arguments cb {T} _.
Arguments ca {T} _.

Section Glsl.
Context {T : Type} `{Scalar T}.
Local Open Scope glsl_scope.

Definition c_zero : T := of_int 0.
Definition c_one : T := of_int 1.

(** The elementwise functions of the vector algebra,
    [swizzle/glsl/vector_functions.h], are not among the sources; each is
    given the meaning the OpenGL shading language gives it. *)

(** Modelled from the spec: [max] of the vector algebra, used by [clamp]. *)
Definition g_max (x y : T) : T := if x <? y then y else x.
(** Modelled from the spec: [min] of the vector algebra, used by [clamp]. *)
Definition g_min (x y : T) : T := if y <? x then y else x.
(** Modelled from the spec: [clamp] of the vector algebra,
    min(max(x, lo), hi). *)
Definition clamp (x lo hi : T) : T := g_min (g_max x lo) hi.
(** Modelled from the spec: [step] of the vector algebra, 0 below the
    edge and 1 from the edge on. *)
Definition step (edge x : T) : T := if x <? edge then c_zero else c_one.
(** Modelled from the spec: [mix] of the vector algebra, the linear
    blend x * (1 - a) + y * a. *)
Definition mix (x y a : T) : T := x * (c_one - a) + y * a.
(** Modelled from the spec: [mod] of the vector algebra,
    x - y * floor(x / y), the non-negative remainder for positive y. *)
Definition mod_ (x y : T) : T := x - y * ffloor (x / y).

Definition map2 (f : T -> T) (v : vec2 T) : vec2 T :=
  mk_vec2 (f (vx v)) (f (vy v)).
Definition map4 (f : T -> T) (v : vec4 T) : vec4 T :=
  mk_vec4 (f (cr v)) (f (cg v)) (f (cb v)) (f (ca v)).
Definition zip4 (f : T -> T -> T) (u v : vec4 T) : vec4 T :=
  mk_vec4 (f (cr u) (cr v)) (f (cg u) (cg v)) (f (cb u) (cb v))
          (f (ca u) (ca v)).

(** vector-with-scalar forms used by the program *)
Definition vec2_add_s (v : vec2 T) (k : T) : vec2 T := map2 (fun c => c + k) v.
Definition vec2_sub_s (v : vec2 T) (k : T) : vec2 T := map2 (fun c => c - k) v.
Definition s_sub_vec2 (k : T) (v : vec2 T) : vec2 T := map2 (fun c => k - c) v.
Definition vec2_mod (v : vec2 T) (k : T) : vec2 T := map2 (fun c => mod_ c k) v.
Definition vec2_abs (v : vec2 T) : vec2 T := map2 fabs v.
Definition vec2_clamp (v : vec2 T) (lo hi : T) : vec2 T :=
  map2 (fun c => clamp c lo hi) v.
Definition vec2_step (edge : T) (v : vec2 T) : vec2 T := map2 (step edge) v.
Definition vec2_div (u v : vec2 T) : vec2 T :=
  mk_vec2 (vx u / vx v) (vy u / vy v).
Definition vec4_mix (u v : vec4 T) (a : T) : vec4 T :=
  zip4 (fun p q => mix p q a) u v.
Definition vec4_clamp (v : vec4 T) (lo hi : T) : vec4 T :=
  map4 (fun c => clamp c lo hi) v.
Definition vec4_div_s (v : vec4 T) (k : T) : vec4 T := map4 (fun c => c / k) v.

Definition red : vec4 T := mk_vec4 c_one c_zero c_zero c_one.
Definition green : vec4 T := mk_vec4 c_zero c_one c_zero c_one.
End Glsl.

(** ** SDL surfaces *)

Record SDL_PixelFormat : Type := {
  BytesPerPixel : Z;
  Rmask : Z; Gmask : Z; Bmask : Z; Amask : Z;
  Rshift : Z; Gshift : Z; Bshift : Z; Ashift : Z
}.

Record SDL_Surface : Type := {
  surf_w : Z;
  surf_h : Z;
  surf_pitch : Z;
  surf_format : SDL_PixelFormat;
  surf_pixels : list Z          (* bytes, row after row, [surf_pitch] apart *)
}.

(** unsigned 32-bit wrap-around of [uint_type] and [uint32_t] *)
Definition u32 (n : Z) : Z := n mod 2 ^ 32.
Definition u8 (n : Z) : Z := n mod 2 ^ 8.

(** A byte read through a pointer into [pixels].  Reading outside the
    array is undefined in the source; the model reads 0 there. *)
Definition load_byte (mem : list Z) (off : Z) : Z :=
  if off <? 0 then 0 else nth (Z.to_nat off) mem 0.

(** ** sampler2D *)

Inductive WrapMode : Type := Clamp | Repeat | MirrorRepeat.

Record sampler2D : Type := {
  m_image : option SDL_Surface;
  m_wrapMode : WrapMode
}.

(** The inner [for] of [sample]: [pixel |= pixelPtr[i] << (i * 8)] for
    [i] from [i0] up, [n] bytes. *)
Fixpoint gather_pixel (mem : list Z) (base : Z) (n : nat) (i0 : Z) (pixel : Z)
  : Z :=
  match n with
  | O => pixel
  | S n' =>
      gather_pixel mem base n' (i0 + 1)
        (u32 (Z.lor pixel (Z.shiftl (load_byte mem (base + i0)) (i0 * 8))))
  end.

Section Sampler.
Context {T : Type} `{Scalar T}.
Local Open Scope glsl_scope.

(** the [switch] on [m_wrapMode] *)
Definition wrap (m : WrapMode) (coord : vec2 T) : vec2 T :=
  match m with
  | Repeat => vec2_mod coord (of_int 1)
  | MirrorRepeat =>
      vec2_abs (vec2_sub_s (vec2_mod (vec2_sub_s coord (of_int 1)) (of_int 2))
                           (of_int 1))
  | Clamp => vec2_clamp coord (of_int 0) (of_int 1)
  end.

(** [uv.y = 1 - uv.y] *)
Definition flip (uv : vec2 T) : vec2 T :=
  mk_vec2 (vx uv) (of_int 1 - vy uv).

(** the branch taken when no image is loaded *)
Definition checkers (uv : vec2 T) : vec4 T :=
  let s := vec2_step half uv in
  let m2 := fabs (vx s - vy s) in
  vec4_mix red green m2.

(** the branch taken when an image is loaded (one lane) *)
Definition fetch (img : SDL_Surface) (uv : vec2 T) : vec4 T :=
  let x := u32 (to_uint (vx uv * of_int (surf_w img - 1) + half)) in
  let y := u32 (to_uint (vy uv * of_int (surf_h img - 1) + half)) in
  let format := surf_format img in
  let index := u32 (y * surf_pitch img + x * BytesPerPixel format) in
  let pixel :=
    gather_pixel (surf_pixels img) index
                 (Z.to_nat (BytesPerPixel format)) 0 0 in
  let pr := Z.shiftr (Z.land pixel (Rmask format)) (Rshift format) in
  let pg := Z.shiftr (Z.land pixel (Gmask format)) (Gshift format) in
  let pb := Z.shiftr (Z.land pixel (Bmask format)) (Bshift format) in
  let pa := if Amask format =? 0 then 255
            else Z.shiftr (Z.land pixel (Amask format)) (Ashift format) in
  let result := mk_vec4 (of_int pr) (of_int pg) (of_int pb) (of_int pa) in
  vec4_clamp (vec4_div_s result (of_int 255)) c_zero c_one.

Definition sample (s : sampler2D) (coord : vec2 T) : vec4 T :=
  let uv := flip (wrap (m_wrapMode s) coord) in
  match m_image s with
  | None => checkers uv
  | Some img => fetch img uv
  end.
End Sampler.

(** ** IEEE-754 binary32, the arithmetic of [float] *)

Module Binary32.
Definition prec : Z := 24.
Definition emax : Z := 128.
Definition float : Type := spec_float.

(** round-to-nearest-even conversion of an integer *)
Definition of_Z (n : Z) : float := binary_normalize prec emax n 0 false.

(** [m * 2^e] for a literal *)
Definition lit (m e : Z) : float := binary_normalize prec emax m e false.

Definition floor (x : float) : float :=
  match x with
  | S754_finite s m e =>
      if 0 <=? e then x
      else
        let n := Z.shiftr (cond_Zopp s (Zpos m)) (- e) in
        if n =? 0 then S754_zero s else of_Z n
  | _ => x
  end.

(** float to integer conversion: the fractional part is discarded.  The
    source leaves NaN and infinities undefined; the model yields 0. *)
Definition trunc (x : float) : Z :=
  match x with
  | S754_finite s m e =>
      cond_Zopp s (if 0 <=? e then Z.shiftl (Zpos m) e
                   else Z.shiftr (Zpos m) (- e))
  | _ => 0
  end.

#[global] Instance scalar : Scalar float := {
  of_int := of_Z;
  half := lit 1 (-1);
  fadd := SFadd prec emax;
  fsub := SFsub prec emax;
  fmul := SFmul prec emax;
  fdiv := SFdiv prec emax;
  ffloor := floor;
  fabs := SFabs;
  fltb := SFltb;
  to_uint := trunc
}.
End Binary32.

(** ** Exact rational arithmetic

    Not the arithmetic of the program, which computes in binary32: the
    rationals are kept as the reference the laws of the specification are
    compared with. *)

Module Exact.
Definition of_Z (n : Z) : Qc := Q2Qc (inject_Z n).
Definition floor (x : Qc) : Qc := of_Z (Qfloor x).
Definition ltb (x y : Qc) : bool :=
  match (x ?= y)%Qc with Lt => true | _ => false end.
Definition trunc (x : Qc) : Z := Z.quot (Qnum x) (Zpos (Qden x)).

#[global] Instance scalar : Scalar Qc := {
  of_int := of_Z;
  half := Q2Qc (1 # 2);
  fadd := Qcplus;
  fsub := Qcminus;
  fmul := Qcmult;
  fdiv := Qcdiv;
  ffloor := floor;
  fabs := Qcabs;
  fltb := ltb;
  to_uint := trunc
}.
End Exact.

(** ** The render thread: one scan of the surface

    [renderThread] in the build without OpenMP: [heightStart = 0],
    [heightStep = 1], [heightEnd = bmp->h]. *)

(** What a loop of the model can end in: a value, a store outside the
    pixel array (undefined in the source), or an exhausted step budget. *)
Inductive result (A : Type) : Type :=
| Ok (a : A)
| OutOfBounds
| OutOfFuel.
Arguments Ok {A} a.
Arguments OutOfBounds {A}.
Arguments OutOfFuel {A}.

(** [*ptr = v] for a byte pointer [off] bytes into the pixel array *)
Definition store_byte (mem : list Z) (off v : Z) : option (list Z) :=
  if (0 <=? off) && (off <? Z.of_nat (List.length mem))
  then Some (firstn (Z.to_nat off) mem ++ v :: skipn (S (Z.to_nat off)) mem)
  else None.

(** the lane indices [0 .. scalar_count - 1] of [static_for] *)
Definition lanes (scalar_count : Z) : list Z :=
  map Z.of_nat (seq 0 (Z.to_nat scalar_count)).

(** One invocation of the shader, as the scan performs it: the scanline,
    the first pixel of the batch, the byte offset the batch is stored at
    and the value of [gl_FragCoord] in each lane. *)
Record Invocation (T : Type) : Type := {
  inv_row : Z;
  inv_x : Z;
  inv_ptr : Z;
  inv_coord : list (vec2 T)
}.
Arguments inv_row {T} _.
Arguments inv_x {T} _.
Arguments inv_ptr {T} _.
Arguments inv_coord {T} _.

Section RenderThread.
Context {T : Type} `{Scalar T}.

(** lanes evaluated together *)
Variable scalar_count : Z.
(** [fragment_shader::operator()], from [gl_FragCoord] to [gl_FragColor];
    the shader body is included from a file of its own *)
Variable shader : vec2 T -> vec4 T.
(** the value of [g_cancelDraw] read by the loop test before scanline [y] *)
Variable cancelDraw : Z -> bool.

(** "convert to [0;255]": [clamp], [color *= 255 + 0.5f], the cast to
    [uint_type] and the cast to [uint8_t] of one channel *)
Definition quantize (c : T) : Z :=
  u8 (u32 (to_uint (clamp c c_zero c_one * (of_int 255 + half))%glsl)).

(** The quantization as the specification words it, for comparison with
    [quantize]: clamp to [0,1], scale by 255, add 0.5, truncate. *)
Definition quantize_rounded (c : T) : Z :=
  u8 (u32 (to_uint (clamp c c_zero c_one * of_int 255 + half)%glsl)).

(** the [static_for] that stores one batch: [*ptr++] three times a lane *)
Fixpoint store_lanes (colors : list (vec4 T)) (ptr : Z) (mem : list Z)
  : option (Z * list Z) :=
  match colors with
  | [] => Some (ptr, mem)
  | c :: rest =>
      match store_byte mem ptr (quantize (cr c)) with
      | None => None
      | Some m1 =>
          match store_byte m1 (ptr + 1) (quantize (cg c)) with
          | None => None
          | Some m2 =>
              match store_byte m2 (ptr + 2) (quantize (cb c)) with
              | None => None
              | Some m3 => store_lanes rest (ptr + 3) m3
              end
          end
      end
  end.

(** the last-batch clamp: [if (x > limitX) { ptr -= 3 * (x - limitX);
    x = limitX; }] *)
Definition clamp_batch (limitX x ptr : Z) : Z * Z :=
  if limitX <? x then (limitX, ptr - 3 * (x - limitX)) else (x, ptr).

(** [gl_FragCoord] of a batch: [x = static_cast<float>(x) + offsets] *)
Definition batch_coords (x : Z) (fy : T) : list (vec2 T) :=
  map (fun i => mk_vec2 (of_int x + of_int i)%glsl fy) (lanes scalar_count).

(** [for (int x = 0; x < bmp->w; x += scalar_count)] *)
Fixpoint row_loop (fuel : nat) (w y : Z) (fy : T) (x ptr : Z)
         (mem : list Z) (log : list (Invocation T))
  : result (list Z * list (Invocation T)) :=
  match fuel with
  | O => OutOfFuel
  | S fuel' =>
      if x <? w then
        let (x1, ptr1) := clamp_batch (w - scalar_count) x ptr in
        let coords := batch_coords x1 fy in
        let inv := {| inv_row := y; inv_x := x1; inv_ptr := ptr1;
                      inv_coord := coords |} in
        match store_lanes (map shader coords) ptr1 mem with
        | None => OutOfBounds
        | Some (ptr2, mem2) =>
            row_loop fuel' w y fy (x1 + scalar_count) ptr2 mem2
                     (log ++ [inv])
        end
      else Ok (mem, log)
  end.

(** [for (int y = 0; !g_cancelDraw && y < bmp->h; y += 1)] *)
Fixpoint scan_loop (fuel : nat) (w h pitch : Z) (y : Z)
         (mem : list Z) (log : list (Invocation T))
  : result (list Z * list (Invocation T)) :=
  match fuel with
  | O => OutOfFuel
  | S fuel' =>
      if negb (cancelDraw y) && (y <? h) then
        let fy := of_int (h - 1 - y) in
        match row_loop (S (Z.to_nat w)) w y fy 0 (y * pitch) mem log with
        | Ok (mem1, log1) => scan_loop fuel' w h pitch (y + 1) mem1 log1
        | OutOfBounds => OutOfBounds
        | OutOfFuel => OutOfFuel
        end
      else Ok (mem, log)
  end.

(** one pass of the [while (true)] body up to the handshake *)
Definition renderThread_scan (bmp : SDL_Surface)
  : result (list Z * list (Invocation T)) :=
  scan_loop (S (Z.to_nat (surf_h bmp))) (surf_w bmp) (surf_h bmp)
            (surf_pitch bmp) 0 (surf_pixels bmp) [].

(** the batch starts of one row alone, after the clamp *)
Fixpoint batch_starts (fuel : nat) (w x : Z) : list Z :=
  match fuel with
  | O => []
  | S fuel' =>
      if x <? w then
        let x1 := fst (clamp_batch (w - scalar_count) x 0) in
        x1 :: batch_starts fuel' w (x1 + scalar_count)
      else []
  end.
End RenderThread.

(** ** The command line

    [main] reads its argument with [s >> initialResolution], the stream
    extraction of the two-component integer vector ([operator>>] of
    [swizzle::glsl::vector]), which is not among the sources. *)

Definition is_digit (c : ascii) : bool :=
  let n := nat_of_ascii c in (48 <=? n)%nat && (n <=? 57)%nat.

Definition is_space (c : ascii) : bool :=
  let n := nat_of_ascii c in (n =? 32)%nat || ((9 <=? n)%nat && (n <=? 13)%nat).

Definition digit_value (c : ascii) : Z := Z.of_nat (nat_of_ascii c) - 48.

Fixpoint skip_spaces (s : string) : string :=
  match s with
  | String c rest => if is_space c then skip_spaces rest else s
  | EmptyString => s
  end.

(** the digits at the head of [s]: how many, their value, what follows *)
Fixpoint read_digits (s : string) (count : nat) (acc : Z) : nat * Z * string :=
  match s with
  | String c rest =>
      if is_digit c then read_digits rest (S count) (acc * 10 + digit_value c)
      else (count, acc, s)
  | EmptyString => (count, acc, s)
  end.

Definition INT_MIN : Z := - 2 ^ 31.
Definition INT_MAX : Z := 2 ^ 31 - 1.

(** Modelled from the spec: the extraction of one [int] by the numeric
    stream parser: leading white space skipped, an optional sign, decimal
    digits; it fails when there is no digit or the value does not fit an
    [int]. *)
Definition read_int (s : string) : option (Z * string) :=
  let s := skip_spaces s in
  let (negative, body) :=
    match s with
    | String "-"%char rest => (true, rest)
    | String "+"%char rest => (false, rest)
    | _ => (false, s)
    end in
  match read_digits body 0 0 with
  | (O, _, _) => None
  | (_, n, rest) =>
      let v := if negative then - n else n in
      if (INT_MIN <=? v) && (v <=? INT_MAX) then Some (v, rest) else None
  end.

(** Modelled from the spec: [operator>>] of the integer vector, for an
    argument of the form "WxH": two integers with one non-digit delimiter
    between them. *)
Definition read_resolution (s : string) : option (Z * Z) :=
  match read_int s with
  | Some (w, String d rest) =>
      if is_digit d then None
      else match read_int rest with
           | Some (h, _) => Some (w, h)
           | None => None
           end
  | _ => None
  end.

(** ** Effects and failures of [main] *)

Inductive Message : Type :=
| parse_error                         (* ERROR: unable to parse resolution argument *)
| invalid_resolution (w h : Z)        (* ERROR: invalid resolution: <w,h> *)
| error_what (what : string)          (* ERROR: <what> *)
| unknown_error.                      (* ERROR: Unknown error *)

Inductive Effect : Type :=
| Cerr (m : Message)
| CoutHelp
| CoutStatus
| CoutWaiting
| SdlInit
| SetVideoMode (w h : Z)
| CreateRGBSurface (w h : Z)
| CreateThread
| BlitSurface
| Flip
| SignalFrameReceived
| WaitThread
| SdlQuit.

Inductive Exn : Type :=
| runtime_error (what : string)
| foreign_exception.                  (* anything not derived from std::exception *)

(** the two [catch] clauses of [main] *)
Definition catch_message (e : Exn) : Message :=
  match e with
  | runtime_error what => error_what what
  | foreign_exception => unknown_error
  end.

(** The argument handling at the head of [main]: the resolution to start
    with, or the message printed before [return 1]. *)
Definition check_resolution (r : Z * Z) : Message + Z * Z :=
  let (w, h) := r in
  if (w <=? 0) || (h <? 0) then inl (invalid_resolution w h) else inr r.

Definition initial_resolution (read : string -> option (Z * Z))
           (argv : list string) : Message + Z * Z :=
  match argv with
  | [_; arg] =>
      match read arg with
      | None => inl parse_error
      | Some r => check_resolution r
      end
  | _ => check_resolution (128, 128)
  end.

(** ** State shared by the two threads, and the locals of [main] *)

Record Flags : Type := {
  g_quit : bool;
  g_cancelDraw : bool;
  g_frameReady : bool
}.

(** [glsl_sandbox::time], [mouse] and [resolution] *)
Record Sandbox (T : Type) : Type := {
  sb_time : T;
  sb_mouse : vec2 T;
  sb_resolution : vec2 T
}.
Arguments sb_time {T} _.
Arguments sb_mouse {T} _.
Arguments sb_resolution {T} _.

Record Shared (T : Type) : Type := {
  flags : Flags;
  sandbox : Sandbox T;
  g_surface : option SDL_Surface
}.
Arguments flags {T} _.
Arguments sandbox {T} _.
Arguments g_surface {T} _.

Record Locals (T : Type) : Type := {
  screen_ptr : option (Z * Z); (* screen: null, or screen->w, screen->h *)
  timeScale : T;
  frame : Z;
  time : T;
  mousePosition : vec2 T;
  pendingResize : bool;
  mousePressed : bool;
  lastFPS : T
}.
Arguments screen_ptr {T} _.
Arguments timeScale {T} _.
Arguments frame {T} _.
Arguments time {T} _.
Arguments mousePosition {T} _.
Arguments pendingResize {T} _.
Arguments mousePressed {T} _.
Arguments lastFPS {T} _.

(** [screen->w] and [screen->h].  The source reads them in the display
    loop only, where [screen] is not null; the model reads 0 through a
    null pointer. *)
Definition screen {T : Type} (l : Locals T) : Z * Z :=
  match screen_ptr l with Some size => size | None => (0, 0) end.

Record MainState (T : Type) : Type := {
  shared : Shared T;
  locals : Locals T;
  trace : list Effect         (* effects so far, oldest first *)
}.
Arguments shared {T} _.
Arguments locals {T} _.
Arguments trace {T} _.

Inductive Key : Type :=
| SDLK_SPACE | SDLK_ESCAPE | SDLK_PLUS | SDLK_EQUALS | SDLK_MINUS | SDLK_other.

Inductive SDL_Event : Type :=
| SDL_VIDEORESIZE (w h : Z)
| SDL_QUIT
| SDL_KEYDOWN (sym : Key)
| SDL_MOUSEMOTION (x y : Z)
| SDL_MOUSEBUTTONDOWN (x y : Z)
| SDL_MOUSEBUTTONUP
| SDL_other.

(** the result of [SDL_CondWaitTimeout]: 0, or [SDL_MUTEX_TIMEDOUT] *)
Inductive WaitResult : Type := Signalled | TimedOut.

(** What one turn of the display loop takes from outside [main]. *)
Record Tick : Type := {
  tick_raised : option Exn;   (* an exception raised by a collaborator *)
  tick_events : list SDL_Event;
  tick_rendered : bool;       (* the render thread has set [g_frameReady]
                                 since the previous handshake *)
  tick_wait : WaitResult;     (* how the timed wait ends, if it is reached *)
  tick_frame_clock : Z;       (* currClock - frameBegin *)
  tick_clock : Z              (* clock() - begin *)
}.

(** the surface [SDL_CreateRGBSurface] returns for 24 bits a pixel: rows
    padded to four bytes, pixels cleared *)
Definition rgb24 : SDL_PixelFormat :=
  {| BytesPerPixel := 3;
     Rmask := 255; Gmask := 65280; Bmask := 16711680; Amask := 0;
     Rshift := 0; Gshift := 8; Bshift := 16; Ashift := 0 |}.

Definition new_surface (w h : Z) : SDL_Surface :=
  let pitch := 4 * ((3 * w + 3) / 4) in
  {| surf_w := w; surf_h := h; surf_pitch := pitch; surf_format := rgb24;
     surf_pixels := repeat 0 (Z.to_nat (h * pitch)) |}.

(** *** A monad for [main]: state, with exceptions that keep the state *)

Inductive Outcome (S A : Type) : Type :=
| Normal (a : A) (s : S)
| Thrown (e : Exn) (s : S).
Arguments Normal {S A} a s.
Arguments Thrown {S A} e s.

Definition M (S A : Type) : Type := S -> Outcome S A.

Definition ret {S A : Type} (a : A) : M S A := fun s => Normal a s.
Definition bind {S A B : Type} (c : M S A) (k : A -> M S B) : M S B :=
  fun s => match c s with
           | Normal a s1 => k a s1
           | Thrown e s1 => Thrown e s1
           end.
Definition throw {S A : Type} (e : Exn) : M S A := fun s => Thrown e s.
Definition gets {S A : Type} (f : S -> A) : M S A := fun s => Normal (f s) s.
Definition modify {S : Type} (f : S -> S) : M S unit := fun s => Normal tt (f s).
Definition when {S : Type} (b : bool) (c : M S unit) : M S unit :=
  if b then c else ret tt.

Declare Scope main_scope.
Delimit Scope main_scope with main.
Notation "x <- c1 ;; c2" := (bind c1 (fun x => c2))
  (at level 61, c1 at next level, right associativity) : main_scope.
Notation "c1 ;; c2" := (bind c1 (fun _ => c2))
  (at level 61, right associativity) : main_scope.

Section StateUpdates.
Context {T : Type}.

Definition with_flags (f : Flags -> Flags) (s : MainState T) : MainState T :=
  {| shared := {| flags := f (flags (shared s));
                  sandbox := sandbox (shared s);
                  g_surface := g_surface (shared s) |};
     locals := locals s; trace := trace s |}.

Definition with_sandbox (f : Sandbox T -> Sandbox T) (s : MainState T)
  : MainState T :=
  {| shared := {| flags := flags (shared s);
                  sandbox := f (sandbox (shared s));
                  g_surface := g_surface (shared s) |};
     locals := locals s; trace := trace s |}.

Definition with_surface (b : SDL_Surface) (s : MainState T) : MainState T :=
  {| shared := {| flags := flags (shared s);
                  sandbox := sandbox (shared s);
                  g_surface := Some b |};
     locals := locals s; trace := trace s |}.

(** [g_surface.reset(nullptr)], what a failed [SDL_CreateRGBSurface]
    leaves *)
Definition without_surface (s : MainState T) : MainState T :=
  {| shared := {| flags := flags (shared s);
                  sandbox := sandbox (shared s);
                  g_surface := None |};
     locals := locals s; trace := trace s |}.

Definition with_locals (f : Locals T -> Locals T) (s : MainState T)
  : MainState T :=
  {| shared := shared s; locals := f (locals s); trace := trace s |}.

Definition emit (e : Effect) : M (MainState T) unit :=
  modify (fun s => {| shared := shared s; locals := locals s;
                      trace := trace s ++ [e] |}).

(** [g_quit = g_cancelDraw = true] *)
Definition request_quit (f : Flags) : Flags :=
  {| g_quit := true; g_cancelDraw := true; g_frameReady := g_frameReady f |}.
(** [g_cancelDraw = true], on a resize *)
Definition request_cancel (f : Flags) : Flags :=
  {| g_quit := g_quit f; g_cancelDraw := true;
     g_frameReady := g_frameReady f |}.
(** [g_frameReady = true], by the render thread *)
Definition publish_frame (f : Flags) : Flags :=
  {| g_quit := g_quit f; g_cancelDraw := g_cancelDraw f;
     g_frameReady := true |}.
(** [g_cancelDraw = g_frameReady = false] *)
Definition reset_flags (f : Flags) : Flags :=
  {| g_quit := g_quit f; g_cancelDraw := false; g_frameReady := false |}.

Definition set_screen (w h : Z) (l : Locals T) : Locals T :=
  {| screen_ptr := Some (w, h); timeScale := timeScale l; frame := frame l;
     time := time l; mousePosition := mousePosition l;
     pendingResize := pendingResize l; mousePressed := mousePressed l;
     lastFPS := lastFPS l |}.
(** [screen = nullptr], what a failed [SDL_SetVideoMode] leaves *)
Definition null_screen (l : Locals T) : Locals T :=
  {| screen_ptr := None; timeScale := timeScale l; frame := frame l;
     time := time l; mousePosition := mousePosition l;
     pendingResize := pendingResize l; mousePressed := mousePressed l;
     lastFPS := lastFPS l |}.
Definition set_timeScale (v : T) (l : Locals T) : Locals T :=
  {| screen_ptr := screen_ptr l; timeScale := v; frame := frame l;
     time := time l; mousePosition := mousePosition l;
     pendingResize := pendingResize l; mousePressed := mousePressed l;
     lastFPS := lastFPS l |}.
Definition set_frame (v : Z) (l : Locals T) : Locals T :=
  {| screen_ptr := screen_ptr l; timeScale := timeScale l; frame := v;
     time := time l; mousePosition := mousePosition l;
     pendingResize := pendingResize l; mousePressed := mousePressed l;
     lastFPS := lastFPS l |}.
Definition set_time (v : T) (l : Locals T) : Locals T :=
  {| screen_ptr := screen_ptr l; timeScale := timeScale l; frame := frame l;
     time := v; mousePosition := mousePosition l;
     pendingResize := pendingResize l; mousePressed := mousePressed l;
     lastFPS := lastFPS l |}.
Definition set_mousePosition (v : vec2 T) (l : Locals T) : Locals T :=
  {| screen_ptr := screen_ptr l; timeScale := timeScale l; frame := frame l;
     time := time l; mousePosition := v;
     pendingResize := pendingResize l; mousePressed := mousePressed l;
     lastFPS := lastFPS l |}.
Definition set_pendingResize (v : bool) (l : Locals T) : Locals T :=
  {| screen_ptr := screen_ptr l; timeScale := timeScale l; frame := frame l;
     time := time l; mousePosition := mousePosition l;
     pendingResize := v; mousePressed := mousePressed l;
     lastFPS := lastFPS l |}.
Definition set_mousePressed (v : bool) (l : Locals T) : Locals T :=
  {| screen_ptr := screen_ptr l; timeScale := timeScale l; frame := frame l;
     time := time l; mousePosition := mousePosition l;
     pendingResize := pendingResize l; mousePressed := v;
     lastFPS := lastFPS l |}.
Definition set_lastFPS (v : T) (l : Locals T) : Locals T :=
  {| screen_ptr := screen_ptr l; timeScale := timeScale l; frame := frame l;
     time := time l; mousePosition := mousePosition l;
     pendingResize := pendingResize l; mousePressed := mousePressed l;
     lastFPS := v |}.
End StateUpdates.

(** ** The display loop and [main] *)

Inductive MainResult : Type :=
| Exited (code : Z) (out : list Effect)
| Running (out : list Effect).     (* the ticks given ran out before a quit *)

(** [blitNow || g_frameReady || SDL_CondWaitTimeout(...) == 0], the wait
    being reached only when the first two are false *)
Definition acquires (blitNow ready : bool) (wait : WaitResult) : bool :=
  blitNow || ready ||
  match wait with Signalled => true | TimedOut => false end.

(** [!blitNow || g_frameReady] *)
Definition releases (blitNow ready : bool) : bool := negb blitNow || ready.

Section DisplayLoop.
Context {T : Type} `{Scalar T}.
Local Open Scope main_scope.

(** the collaborators of [main] *)
Variable read : string -> option (Z * Z).     (* s >> initialResolution *)
Variable sdl_init_ok : bool.                  (* SDL_Init(...) >= 0 *)
Variable video_mode_ok : Z -> Z -> bool.      (* SDL_SetVideoMode != 0 *)
Variable surface_ok : Z -> Z -> bool.         (* SDL_CreateRGBSurface != 0 *)
(** [static_cast<float>(delta / double(CLOCKS_PER_SEC) * timeScale)] *)
Variable seconds : Z -> T -> T.
(** [1.0f / static_cast<float>(ticks / double(CLOCKS_PER_SEC))] *)
Variable fps : Z -> T.

(** [screen = SDL_SetVideoMode(...)] is assigned before it is tested: a
    failure leaves [screen] null *)
Definition resizeOrCreateScreen (w h : Z) : M (MainState T) unit :=
  emit (SetVideoMode w h) ;;
  if video_mode_ok w h then modify (with_locals (set_screen w h))
  else
    modify (with_locals null_screen) ;;
    throw (runtime_error "Unable to set video mode").

(** [g_surface.reset(SDL_CreateRGBSurface(...))] comes before the test: a
    failure leaves [g_surface] null *)
Definition resizeOrCreateSurface (w h : Z) : M (MainState T) unit :=
  emit (CreateRGBSurface w h) ;;
  if surface_ok w h then
    modify (with_surface (new_surface w h)) ;;
    modify (with_sandbox (fun sb =>
      {| sb_time := sb_time sb; sb_mouse := sb_mouse sb;
         sb_resolution := mk_vec2 (of_int w) (of_int h) |}))
  else
    modify without_surface ;;
    throw (runtime_error "Unable to create surface").

(** [g_surface->h]; the surface exists from the setup on *)
Definition surface_h (s : MainState T) : Z :=
  match g_surface (shared s) with Some b => surf_h b | None => 0 end.

Definition track_mouse (x y : Z) : M (MainState T) unit :=
  h <- gets surface_h ;;
  modify (with_locals
            (set_mousePosition (mk_vec2 (of_int x) (of_int (h - 1 - y))))).

(** one case of the [switch] on [event.type]; yields the new [blitNow] *)
Definition handle_event (ev : SDL_Event) (blitNow : bool) : M (MainState T) bool :=
  match ev with
  | SDL_VIDEORESIZE w h =>
      scr <- gets (fun s => screen (locals s)) ;;
      (if negb (w =? fst scr) || negb (h =? snd scr) then
         resizeOrCreateScreen w h ;;
         modify (with_flags request_cancel) ;;
         modify (with_locals (set_pendingResize true))
       else ret tt) ;;
      ret blitNow
  | SDL_QUIT => modify (with_flags request_quit) ;; ret blitNow
  | SDL_KEYDOWN SDLK_SPACE => ret true
  | SDL_KEYDOWN SDLK_ESCAPE => modify (with_flags request_quit) ;; ret blitNow
  | SDL_KEYDOWN SDLK_PLUS | SDL_KEYDOWN SDLK_EQUALS =>
      modify (with_locals (fun l =>
        set_timeScale (fmul (timeScale l) (of_int 2)) l)) ;;
      ret blitNow
  | SDL_KEYDOWN SDLK_MINUS =>
      modify (with_locals (fun l =>
        set_timeScale (fdiv (timeScale l) (of_int 2)) l)) ;;
      ret blitNow
  | SDL_KEYDOWN SDLK_other => ret blitNow
  | SDL_MOUSEMOTION x y =>
      pressed <- gets (fun s => mousePressed (locals s)) ;;
      when pressed (track_mouse x y) ;;
      ret blitNow
  | SDL_MOUSEBUTTONDOWN x y =>
      modify (with_locals (set_mousePressed true)) ;;
      track_mouse x y ;;
      ret blitNow
  | SDL_MOUSEBUTTONUP =>
      modify (with_locals (set_mousePressed false)) ;; ret blitNow
  | SDL_other => ret blitNow
  end.

(** [while (SDL_PollEvent(&event))] *)
Fixpoint poll_events (evs : list SDL_Event) (blitNow : bool) : M (MainState T) bool :=
  match evs with
  | [] => ret blitNow
  | ev :: rest => b <- handle_event ev blitNow ;; poll_events rest b
  end.

(** "transfer variables" and "reset flags", then the consumed signal *)
Definition publish : M (MainState T) unit :=
  modify (fun s => with_sandbox (fun sb =>
    {| sb_time := time (locals s);
       sb_mouse :=
         vec2_div (mousePosition (locals s))
                  (mk_vec2 (of_int (fst (screen (locals s))))
                           (of_int (snd (screen (locals s)))));
       sb_resolution := sb_resolution sb |}) s) ;;
  modify (with_flags reset_flags) ;;
  emit SignalFrameReceived.

(** The block under [ScopedLock lock(g_frameHandshakeMutex)] of the
    display loop; yields [doFlip].  When the timed wait is reached and
    ends signalled, the render thread has set [g_frameReady] and raised
    [m_frameReadyEvent] meanwhile. *)
Definition handshake (blitNow : bool) (wait : WaitResult) (frame_clock : Z)
  : M (MainState T) bool :=
  quit <- gets (fun s => g_quit (flags (shared s))) ;;
  ready <- gets (fun s => g_frameReady (flags (shared s))) ;;
  if quit then
    when ready (emit SignalFrameReceived) ;;
    ret false
  else if acquires blitNow ready wait then
    when (negb (blitNow || ready)) (modify (with_flags publish_frame)) ;;
    emit BlitSurface ;;
    pending <- gets (fun s => pendingResize (locals s)) ;;
    when pending
      (scr <- gets (fun s => screen (locals s)) ;;
       resizeOrCreateSurface (fst scr) (snd scr) ;;
       modify (with_locals (set_pendingResize false))) ;;
    ready <- gets (fun s => g_frameReady (flags (shared s))) ;;
    when ready (modify (with_locals (set_lastFPS (fps frame_clock)))) ;;
    when (releases blitNow ready) publish ;;
    ret true
  else ret false.

(** one turn of [while (!g_quit)] *)
Definition iteration (t : Tick) : M (MainState T) unit :=
  match tick_raised t with Some e => throw e | None => ret tt end ;;
  blitNow <- poll_events (tick_events t) false ;;
  when (tick_rendered t) (modify (with_flags publish_frame)) ;;
  doFlip <- handshake blitNow (tick_wait t) (tick_frame_clock t) ;;
  when doFlip
    (modify (with_locals (fun l => set_frame (frame l + 1) l)) ;;
     emit Flip) ;;
  emit CoutStatus ;;
  modify (with_locals (fun l =>
    set_time (fadd (time l) (seconds (tick_clock t) (timeScale l))) l)).

(** [while (!g_quit)]; yields whether the loop was left *)
Fixpoint display_loop (ticks : list Tick) : M (MainState T) bool :=
  quit <- gets (fun s => g_quit (flags (shared s))) ;;
  if quit then ret true
  else match ticks with
       | [] => ret false
       | t :: rest => iteration t ;; display_loop rest
       end.

(** the [try] block *)
Definition try_block (w h : Z) (ticks : list Tick) : M (MainState T) bool :=
  emit SdlInit ;;
  (if sdl_init_ok then ret tt else throw (runtime_error "Unable to init SDL")) ;;
  resizeOrCreateScreen w h ;;
  resizeOrCreateSurface w h ;;
  emit CreateThread ;;
  left <- display_loop ticks ;;
  when left (emit CoutWaiting ;; emit WaitThread) ;;
  ret left.

(** the globals and the locals of [main] as initialised *)
Definition initial_state : MainState T :=
  {| shared :=
       {| flags := {| g_quit := false; g_cancelDraw := false;
                      g_frameReady := false |};
          sandbox := {| sb_time := of_int 1;
                        sb_mouse := mk_vec2 (of_int 0) (of_int 0);
                        sb_resolution := mk_vec2 (of_int 0) (of_int 0) |};
          g_surface := None |};
     locals :=
       {| screen_ptr := None; timeScale := of_int 1; frame := 0;
          time := of_int 0; mousePosition := mk_vec2 (of_int 0) (of_int 0);
          pendingResize := false; mousePressed := false;
          lastFPS := of_int 0 |};
     trace := [CoutHelp] |}.

Definition main (argv : list string) (ticks : list Tick) : MainResult :=
  match initial_resolution read argv with
  | inl m => Exited 1 [Cerr m]
  | inr (w, h) =>
      match try_block w h ticks initial_state with
      | Normal true s => Exited 0 (trace s ++ [SdlQuit])
      | Normal false s => Running (trace s)
      | Thrown e s => Exited 0 (trace s ++ [Cerr (catch_message e); SdlQuit])
      end
  end.
End DisplayLoop.

(** ** The frame handshake as a protocol of two threads

    The render thread and the display loop, reduced to the statements that
    touch [g_frameHandshakeMutex], the two condition variables and the
    flags.  A step is one such statement of one thread; the mutex is free
    or owned; a thread inside [SDL_CondWait] or [SDL_CondWaitTimeout] has
    released the mutex, leaves the wait when the condition is signalled
    (or, for the timed wait, when the time is up) and then takes the mutex
    again before it goes on.  [SDL_CondSignal] wakes the thread waiting on
    the condition, if there is one.  The release of the mutex at the end
    of a [ScopedLock] scope is taken together with the last statement of
    the scope. *)

Inductive Thread : Type := RenderThread | DisplayThread.

Inductive WorkerPc : Type :=
| W_scan        (* in the loop over the scanlines *)
| W_lock        (* at ScopedLock, the mutex not yet taken *)
| W_locked      (* mutex held, at the first if (g_quit) *)
| W_ready       (* g_frameReady = true done, at SDL_CondSignal *)
| W_signalled   (* at SDL_CondWait *)
| W_waiting     (* inside SDL_CondWait, mutex released *)
| W_woken       (* m_frameReceivedEvent signalled, taking the mutex again *)
| W_resumed     (* SDL_CondWait has returned, at the second if (g_quit) *)
| W_exit.       (* return 0 *)

Inductive MainPc : Type :=
| M_poll (blitNow : bool)               (* in the event loop *)
| M_event_lock (quit blitNow : bool)    (* a quit or a resize, at its ScopedLock *)
| M_event_locked (quit blitNow : bool)  (* mutex held, about to set the flags *)
| M_lock (blitNow : bool)               (* at the ScopedLock of the handshake *)
| M_locked (blitNow : bool)             (* mutex held, at if (g_quit) *)
| M_waiting                             (* inside SDL_CondWaitTimeout *)
| M_woken (signalled : bool)            (* wait over, taking the mutex again *)
| M_reacquired (signalled : bool)       (* SDL_CondWaitTimeout has returned *)
| M_blit (blitNow acquired : bool)      (* at SDL_BlitSurface *)
| M_release (blitNow acquired : bool)   (* at if (!blitNow || g_frameReady) *)
| M_unlocked                            (* past the block, at the loop test *)
| M_join                                (* at SDL_WaitThread *)
| M_exit.

Record Protocol : Type := {
  p_flags : Flags;
  p_mutex : option Thread;
  p_worker : WorkerPc;
  p_main : MainPc
}.

(** what a step does to the pixels of the surface *)
Inductive Access : Type := NoAccess | WritePixels | ReadPixels.

(** [SDL_CondSignal(m_frameReadyEvent)] *)
Definition signal_ready (m : MainPc) : MainPc :=
  match m with M_waiting => M_woken true | _ => m end.

(** [SDL_CondSignal(m_frameReceivedEvent)] *)
Definition signal_received (w : WorkerPc) : WorkerPc :=
  match w with W_waiting => W_woken | _ => w end.

Inductive transition : Protocol -> Access -> Protocol -> Prop :=
(* the render thread *)
| w_scanline f mu m :                   (* !g_cancelDraw && y < heightEnd *)
    g_cancelDraw f = false ->
    transition {| p_flags := f; p_mutex := mu; p_worker := W_scan; p_main := m |}
         WritePixels
         {| p_flags := f; p_mutex := mu; p_worker := W_scan; p_main := m |}
| w_scan_over f mu m :                  (* the loop test fails *)
    transition {| p_flags := f; p_mutex := mu; p_worker := W_scan; p_main := m |}
         NoAccess
         {| p_flags := f; p_mutex := mu; p_worker := W_lock; p_main := m |}
| w_lock f m :
    transition {| p_flags := f; p_mutex := None; p_worker := W_lock; p_main := m |}
         NoAccess
         {| p_flags := f; p_mutex := Some RenderThread; p_worker := W_locked;
            p_main := m |}
| w_quit f mu m :
    g_quit f = true ->
    transition {| p_flags := f; p_mutex := mu; p_worker := W_locked; p_main := m |}
         NoAccess
         {| p_flags := f; p_mutex := None; p_worker := W_exit; p_main := m |}
| w_frame_ready f mu m :
    g_quit f = false ->
    transition {| p_flags := f; p_mutex := mu; p_worker := W_locked; p_main := m |}
         NoAccess
         {| p_flags := publish_frame f; p_mutex := mu; p_worker := W_ready;
            p_main := m |}
| w_signal f mu m :
    transition {| p_flags := f; p_mutex := mu; p_worker := W_ready; p_main := m |}
         NoAccess
         {| p_flags := f; p_mutex := mu; p_worker := W_signalled;
            p_main := signal_ready m |}
| w_wait f mu m :
    transition {| p_flags := f; p_mutex := mu; p_worker := W_signalled; p_main := m |}
         NoAccess
         {| p_flags := f; p_mutex := None; p_worker := W_waiting; p_main := m |}
| w_wake f m :
    transition {| p_flags := f; p_mutex := None; p_worker := W_woken; p_main := m |}
         NoAccess
         {| p_flags := f; p_mutex := Some RenderThread; p_worker := W_resumed;
            p_main := m |}
| w_resume_quit f mu m :
    g_quit f = true ->
    transition {| p_flags := f; p_mutex := mu; p_worker := W_resumed; p_main := m |}
         NoAccess
         {| p_flags := f; p_mutex := None; p_worker := W_exit; p_main := m |}
| w_next_frame f mu m :
    g_quit f = false ->
    transition {| p_flags := f; p_mutex := mu; p_worker := W_resumed; p_main := m |}
         NoAccess
         {| p_flags := f; p_mutex := None; p_worker := W_scan; p_main := m |}
(* the display loop *)
| m_space f mu w b :
    transition {| p_flags := f; p_mutex := mu; p_worker := w; p_main := M_poll b |}
         NoAccess
         {| p_flags := f; p_mutex := mu; p_worker := w; p_main := M_poll true |}
| m_event f mu w q b :
    transition {| p_flags := f; p_mutex := mu; p_worker := w; p_main := M_poll b |}
         NoAccess
         {| p_flags := f; p_mutex := mu; p_worker := w;
            p_main := M_event_lock q b |}
| m_event_lock f w q b :
    transition {| p_flags := f; p_mutex := None; p_worker := w;
            p_main := M_event_lock q b |}
         NoAccess
         {| p_flags := f; p_mutex := Some DisplayThread; p_worker := w;
            p_main := M_event_locked q b |}
| m_event_flags f mu w q b :
    transition {| p_flags := f; p_mutex := mu; p_worker := w;
            p_main := M_event_locked q b |}
         NoAccess
         {| p_flags := if q then request_quit f else request_cancel f;
            p_mutex := None; p_worker := w; p_main := M_poll b |}
| m_poll_over f mu w b :
    transition {| p_flags := f; p_mutex := mu; p_worker := w; p_main := M_poll b |}
         NoAccess
         {| p_flags := f; p_mutex := mu; p_worker := w; p_main := M_lock b |}
| m_lock f w b :
    transition {| p_flags := f; p_mutex := None; p_worker := w; p_main := M_lock b |}
         NoAccess
         {| p_flags := f; p_mutex := Some DisplayThread; p_worker := w;
            p_main := M_locked b |}
| m_quit f mu w b :
    g_quit f = true ->
    transition {| p_flags := f; p_mutex := mu; p_worker := w; p_main := M_locked b |}
         NoAccess
         {| p_flags := f; p_mutex := None;
            p_worker := if g_frameReady f then signal_received w else w;
            p_main := M_unlocked |}
| m_acquire f mu w b :
    g_quit f = false -> b || g_frameReady f = true ->
    transition {| p_flags := f; p_mutex := mu; p_worker := w; p_main := M_locked b |}
         NoAccess
         {| p_flags := f; p_mutex := mu; p_worker := w;
            p_main := M_blit b (g_frameReady f) |}
| m_wait f mu w b :
    g_quit f = false -> b || g_frameReady f = false ->
    transition {| p_flags := f; p_mutex := mu; p_worker := w; p_main := M_locked b |}
         NoAccess
         {| p_flags := f; p_mutex := None; p_worker := w; p_main := M_waiting |}
| m_timeout f mu w :
    transition {| p_flags := f; p_mutex := mu; p_worker := w; p_main := M_waiting |}
         NoAccess
         {| p_flags := f; p_mutex := mu; p_worker := w;
            p_main := M_woken false |}
| m_wake f w sig :
    transition {| p_flags := f; p_mutex := None; p_worker := w; p_main := M_woken sig |}
         NoAccess
         {| p_flags := f; p_mutex := Some DisplayThread; p_worker := w;
            p_main := M_reacquired sig |}
| m_wait_signalled f mu w :
    transition {| p_flags := f; p_mutex := mu; p_worker := w;
            p_main := M_reacquired true |}
         NoAccess
         {| p_flags := f; p_mutex := mu; p_worker := w;
            p_main := M_blit false true |}
| m_wait_timed_out f mu w :
    transition {| p_flags := f; p_mutex := mu; p_worker := w;
            p_main := M_reacquired false |}
         NoAccess
         {| p_flags := f; p_mutex := None; p_worker := w; p_main := M_unlocked |}
| m_blit f mu w b a :
    transition {| p_flags := f; p_mutex := mu; p_worker := w; p_main := M_blit b a |}
         ReadPixels
         {| p_flags := f; p_mutex := mu; p_worker := w;
            p_main := M_release b a |}
| m_release f mu w b a :
    releases b (g_frameReady f) = true ->
    transition {| p_flags := f; p_mutex := mu; p_worker := w;
            p_main := M_release b a |}
         NoAccess
         {| p_flags := reset_flags f; p_mutex := None;
            p_worker := signal_received w; p_main := M_unlocked |}
| m_keep f mu w b a :
    releases b (g_frameReady f) = false ->
    transition {| p_flags := f; p_mutex := mu; p_worker := w;
            p_main := M_release b a |}
         NoAccess
         {| p_flags := f; p_mutex := None; p_worker := w; p_main := M_unlocked |}
| m_loop f mu w :
    g_quit f = false ->
    transition {| p_flags := f; p_mutex := mu; p_worker := w; p_main := M_unlocked |}
         NoAccess
         {| p_flags := f; p_mutex := mu; p_worker := w; p_main := M_poll false |}
| m_leave f mu w :
    g_quit f = true ->
    transition {| p_flags := f; p_mutex := mu; p_worker := w; p_main := M_unlocked |}
         NoAccess
         {| p_flags := f; p_mutex := mu; p_worker := w; p_main := M_join |}
| m_join f mu :
    transition {| p_flags := f; p_mutex := mu; p_worker := W_exit; p_main := M_join |}
         NoAccess
         {| p_flags := f; p_mutex := mu; p_worker := W_exit; p_main := M_exit |}.

(** the moment [SDL_CreateThread] has returned *)
Definition protocol_start : Protocol :=
  {| p_flags := {| g_quit := false; g_cancelDraw := false;
                   g_frameReady := false |};
     p_mutex := None; p_worker := W_scan; p_main := M_poll false |}.

(** the states some interleaving of the two threads leads to *)
Inductive reachable : Protocol -> Prop :=
| reach_start : reachable protocol_start
| reach_step s a s' : reachable s -> transition s a s' -> reachable s'.

(** The consumer's window: the display loop has taken the frame, having
    seen [g_frameReady] set or having been signalled in the timed wait,
    and has not yet passed the statement that raises the consumed
    signal. *)
Definition in_window (s : Protocol) : bool :=
  match p_main s with
  | M_blit _ true | M_release _ true => true
  | _ => false
  end.


(** ** Concrete data for the examples *)

(** binary32 coordinates in quarters: [quarters a b] is (a/4, b/4) *)
Definition quarters (a b : Z) : vec2 Binary32.float :=
  mk_vec2 (Binary32.lit a (-2)) (Binary32.lit b (-2)).

(** the same in exact arithmetic *)
Definition exact_quarters (a b : Z) : vec2 Qc :=
  mk_vec2 (Q2Qc (a # 4)) (Q2Qc (b # 4)).

(** a sampler whose image failed to load *)
Definition no_image (m : WrapMode) : sampler2D :=
  {| m_image := None; m_wrapMode := m |}.

(** a two-pixel image, black then white, in one padded row *)
Definition black_white : SDL_Surface :=
  {| surf_w := 2; surf_h := 1; surf_pitch := 8; surf_format := rgb24;
     surf_pixels := [0; 0; 0; 255; 255; 255; 0; 0] |}.

(** (-2^-30, 1/4): just left of a texture seam *)
Definition near_seam : vec2 Binary32.float :=
  mk_vec2 (Binary32.lit (-1) (-30)) (Binary32.lit 1 (-2)).

(** (-(1/2 - 3 * 2^-25), 1/4): just right of a texel boundary, mirrored *)
Definition near_middle : vec2 Binary32.float :=
  mk_vec2 (Binary32.lit (-16777213) (-25)) (Binary32.lit 1 (-2)).

(** a shader that returns one colour everywhere *)
Definition constant_shader (c : vec4 Binary32.float)
  : vec2 Binary32.float -> vec4 Binary32.float := fun _ => c.

Definition never (_ : Z) : bool := false.

(** the pixel bytes a scan leaves, when it ends without a fault *)
Definition scanned_pixels {T : Type}
           (r : result (list Z * list (Invocation T))) : option (list Z) :=
  match r with Ok (mem, _) => Some mem | _ => None end.

(** A surface the scan can be run on with [scalar_count] lanes: at least
    one batch fits a row, the rows fit the pitch and the pixel array holds
    all rows. *)
Definition well_formed (scalar_count : Z) (bmp : SDL_Surface) : Prop :=
  0 < scalar_count <= surf_w bmp /\ 0 <= surf_h bmp /\
  3 * surf_w bmp <= surf_pitch bmp /\
  surf_h bmp * surf_pitch bmp <= Z.of_nat (List.length (surf_pixels bmp)).

(** A batch as the scan of a [w] by [h] surface should perform it: on a
    scanline of the surface, inside the row, stored at the offset of its
    first pixel, with [gl_FragCoord.y] counted from the bottom row. *)
Definition batch_ok {T : Type} `{Scalar T} (scalar_count w h pitch : Z)
           (inv : Invocation T) : Prop :=
  0 <= inv_row inv < h /\
  0 <= inv_x inv /\ inv_x inv + scalar_count <= w /\
  inv_ptr inv = inv_row inv * pitch + 3 * inv_x inv /\
  inv_coord inv
  = batch_coords scalar_count (inv_x inv) (of_int (h - 1 - inv_row inv)).

(** the state a computation of [main] ends in, returned or thrown *)
Definition final_state {S A : Type} (o : Outcome S A) : S :=
  match o with Normal _ s => s | Thrown _ s => s end.

(** the state of [main] once the setup has succeeded and the render thread
    is started *)
Definition running_state {T : Type} `{Scalar T} (w h : Z) : MainState T :=
  {| shared :=
       {| flags := {| g_quit := false; g_cancelDraw := false;
                      g_frameReady := false |};
          sandbox := {| sb_time := of_int 1;
                        sb_mouse := mk_vec2 (of_int 0) (of_int 0);
                        sb_resolution := mk_vec2 (of_int w) (of_int h) |};
          g_surface := Some (new_surface w h) |};
     locals :=
       {| screen_ptr := Some (w, h); timeScale := of_int 1; frame := 0;
          time := of_int 0; mousePosition := mk_vec2 (of_int 0) (of_int 0);
          pendingResize := false; mousePressed := false;
          lastFPS := of_int 0 |};
     trace := [CoutHelp; SdlInit; SetVideoMode w h; CreateRGBSurface w h;
               CreateThread] |}.

(** collaborators that never fail, and clocks that do not matter *)
Definition always_ok (_ _ : Z) : bool := true.
Definition no_seconds (_ : Z) (t : Binary32.float) : Binary32.float := t.
Definition no_fps (_ : Z) : Binary32.float := Binary32.of_Z 0.

(** *** The invariant of the handshake protocol *)

Definition worker_holds (w : WorkerPc) : bool :=
  match w with
  | W_locked | W_ready | W_signalled | W_resumed => true
  | _ => false
  end.

Definition main_holds (m : MainPc) : bool :=
  match m with
  | M_event_locked _ _ | M_locked _ | M_reacquired _ | M_blit _ _
  | M_release _ _ => true
  | _ => false
  end.

(** the mutex is owned by the thread whose program point lies in a
    critical section, and by no one else *)
Definition mutex_inv (s : Protocol) : bool :=
  match p_mutex s with
  | None => negb (worker_holds (p_worker s)) && negb (main_holds (p_main s))
  | Some RenderThread =>
      worker_holds (p_worker s) && negb (main_holds (p_main s))
  | Some DisplayThread =>
      negb (worker_holds (p_worker s)) && main_holds (p_main s)
  end.

(** what the flags are at each program point of the render thread *)
Definition worker_inv (f : Flags) (w : WorkerPc) : bool :=
  match w with
  | W_scan | W_lock | W_locked => negb (g_frameReady f)
  | W_ready | W_signalled | W_waiting => g_frameReady f
  | W_woken | W_resumed => negb (g_frameReady f) || g_quit f
  | W_exit => g_quit f
  end.

(** what the flags are at each program point of the display loop *)
Definition main_inv (f : Flags) (m : MainPc) : bool :=
  match m with
  | M_woken true | M_reacquired true => g_frameReady f && negb (g_quit f)
  | M_blit b a | M_release b a =>
      Bool.eqb a (g_frameReady f) && (b || a) && negb (g_quit f)
  | M_waiting | M_woken false | M_reacquired false => negb (g_quit f)
  | _ => true
  end.

Definition handshake_inv (s : Protocol) : bool :=
  mutex_inv s && worker_inv (p_flags s) (p_worker s)
  && main_inv (p_flags s) (p_main s).

(** a state inside the consumer's window, with the steps that lead to it *)
Definition window_state : Protocol :=
  {| p_flags := {| g_quit := false; g_cancelDraw := false;
                   g_frameReady := true |};
     p_mutex := Some DisplayThread; p_worker := W_waiting;
     p_main := M_blit false true |}.

(** *** A grid of coordinates that binary32 represents exactly *)

Definition same_float (x y : Binary32.float) : bool :=
  match x, y with
  | S754_zero a, S754_zero b => Bool.eqb a b
  | S754_infinity a, S754_infinity b => Bool.eqb a b
  | S754_nan, S754_nan => true
  | S754_finite s m e, S754_finite s' m' e' =>
      Bool.eqb s s' && Pos.eqb m m' && Z.eqb e e'
  | _, _ => false
  end.

Definition same_colour (u v : vec4 Binary32.float) : bool :=
  same_float (cr u) (cr v) && same_float (cg u) (cg v)
  && same_float (cb u) (cb v) && same_float (ca u) (ca v).

(** the integers from [- n] to [n] *)
Definition around (n : nat) : list Z :=
  map (fun i => Z.of_nat i - Z.of_nat n) (seq 0 (2 * n + 1)).

(** [sample] agrees at [f c] and at [c] for every [c] of the grid of
    quarters between -2 and 2 *)
Definition agree_on_grid (s : sampler2D)
           (f : vec2 Binary32.float -> vec2 Binary32.float) : bool :=
  forallb (fun a =>
    forallb (fun b =>
      same_colour (sample s (f (quarters a b))) (sample s (quarters a b)))
      (around 8))
    (around 8).




(** ** Aligned scratch arrays

    [renderThread] and [sampler2D::sample] carve the arrays they hand to
    [store_aligned] and [load_aligned] out of a blob on the stack, with
    [alignPtr].  Pointers are byte addresses; [ptrdiff_t] and [size_t] have
    64 bits. *)

Definition u64 (n : Z) : Z := n mod 2 ^ 64.

(** [(value + Align) & (~(Align - 1))], in the unsigned arithmetic the
    operands are converted to *)
Definition alignPtr (Align ptr : Z) : Z :=
  Z.land (u64 (ptr + Align)) (u64 (Z.lnot (Align - 1))).

(** [pr], [pg] and [pb] of [renderThread]; a step of [scalar_count]
    [unsigned]s is [4 * scalar_count] bytes *)
Definition render_arrays (Align scalar_count blob : Z) : Z * Z * Z :=
  let pr := alignPtr Align blob in
  let pg := alignPtr Align (pr + 4 * scalar_count) in
  let pb := alignPtr Align (pg + 4 * scalar_count) in
  (pr, pg, pb).

(** the bytes of [unsigned unalignedBlob[3 * (scalar_count +
    uint_entries_align / sizeof(unsigned))]] *)
Definition render_blob_size (Align scalar_count : Z) : Z :=
  4 * (3 * (scalar_count + Align / 4)).

(** [pindex], [pr], [pg], [pb] and [pa] of [sample] *)
Definition sample_arrays (Align scalar_count blob : Z) : Z * Z * Z * Z * Z :=
  let pindex := alignPtr Align blob in
  let pr := alignPtr Align (pindex + 4 * scalar_count) in
  let pg := alignPtr Align (pr + 4 * scalar_count) in
  let pb := alignPtr Align (pg + 4 * scalar_count) in
  let pa := alignPtr Align (pb + 4 * scalar_count) in
  (pindex, pr, pg, pb, pa).

(** the bytes of [uint8_t unalignedBlob[5 * (scalar_count *
    sizeof(unsigned) + uint_entries_align)]] *)
Definition sample_blob_size (Align scalar_count : Z) : Z :=
  5 * (scalar_count * 4 + Align).

(** ** What a scan leaves in the pixels *)

(** The three bytes of pixel [c] of the row at byte offset [base] hold the
    quantized colour the shader returns in some lane [i] of a batch that
    starts at [x], with [x + i = c], for the fragment row [fy]. *)
Definition shaded {T : Type} `{Scalar T} (scalar_count : Z)
           (shader : vec2 T -> vec4 T) (fy : T) (mem : list Z)
           (base c : Z) : Prop :=
  exists x i,
    0 <= x /\ 0 <= i < scalar_count /\ x + i = c /\
    let colour := shader (mk_vec2 (of_int x + of_int i)%glsl fy) in
    load_byte mem (base + 3 * c) = quantize (cr colour) /\
    load_byte mem (base + 3 * c + 1) = quantize (cg colour) /\
    load_byte mem (base + 3 * c + 2) = quantize (cb colour).

(** a value of [uint8_t] *)
Definition is_byte (b : Z) : Prop := 0 <= b < 256.

(** [g_cancelDraw] as a scan sees it when the flag is raised while
    scanline [y0 - 1] is drawn *)
Definition cancel_from (y0 y : Z) : bool := y0 <=? y.

(** ** The display loop: events, counters and invariants *)

(** the events on which [main] sets [g_quit] *)
Definition is_quit_event (ev : SDL_Event) : bool :=
  match ev with
  | SDL_QUIT | SDL_KEYDOWN SDLK_ESCAPE => true
  | _ => false
  end.

(** the event on which [main] sets [blitNow] *)
Definition is_space_event (ev : SDL_Event) : bool :=
  match ev with SDL_KEYDOWN SDLK_SPACE => true | _ => false end.

Definition is_button_down (ev : SDL_Event) : bool :=
  match ev with SDL_MOUSEBUTTONDOWN _ _ => true | _ => false end.

Definition is_flip (e : Effect) : bool :=
  match e with Flip => true | _ => false end.

Definition is_blit (e : Effect) : bool :=
  match e with BlitSurface => true | _ => false end.

(** how many effects of a kind a trace holds *)
Definition count (p : Effect -> bool) (tr : list Effect) : Z :=
  Z.of_nat (List.length (filter p tr)).

(** A computation of [main] started where [P] holds returns in a state
    where [Q] holds of its value, or throws in a state where [E] holds. *)
Definition triple {S A : Type} (P : S -> Prop) (c : M S A)
           (Q : A -> S -> Prop) (E : S -> Prop) : Prop :=
  forall s, P s ->
            match c s with
            | Normal a s' => Q a s'
            | Thrown _ s' => E s'
            end.

(** What the display loop keeps true between its statements: a quit and a
    pending resize both have [g_cancelDraw] raised, [screen] and
    [g_surface] are not null, and while no resize is pending the surface
    and the published resolution have the size of the screen. *)
Definition loop_inv {T : Type} `{Scalar T} (s : MainState T) : Prop :=
  (g_quit (flags (shared s)) = true ->
   g_cancelDraw (flags (shared s)) = true) /\
  (pendingResize (locals s) = true ->
   g_cancelDraw (flags (shared s)) = true) /\
  screen_ptr (locals s) <> None /\
  exists b,
    g_surface (shared s) = Some b /\
    (pendingResize (locals s) = false ->
     surf_w b = fst (screen (locals s)) /\
     surf_h b = snd (screen (locals s)) /\
     sb_resolution (sandbox (shared s))
     = mk_vec2 (of_int (fst (screen (locals s))))
               (of_int (snd (screen (locals s))))).

(** What is left of it in the state a failure leaves: a failed
    [SDL_SetVideoMode] has set [screen] to null and a failed
    [SDL_CreateRGBSurface] has set [g_surface] to null before the
    exception is thrown. *)
Definition loop_inv_thrown {T : Type} `{Scalar T} (s : MainState T) : Prop :=
  (g_quit (flags (shared s)) = true ->
   g_cancelDraw (flags (shared s)) = true) /\
  (pendingResize (locals s) = true ->
   g_cancelDraw (flags (shared s)) = true) /\
  (screen_ptr (locals s) <> None -> g_surface (shared s) <> None ->
   loop_inv s).

(** [frame] is [k] ahead of the flips in the trace, the blits are [d]
    ahead of them *)
Definition frame_count {T : Type} (k d : Z) (s : MainState T) : Prop :=
  frame (locals s) - count is_flip (trace s) = k /\
  count is_blit (trace s) - count is_flip (trace s) = d.

(** the same after a failure, which may fall between a blit and its flip *)
Definition frame_count_thrown {T : Type} (k d : Z) (s : MainState T) : Prop :=
  frame (locals s) - count is_flip (trace s) = k /\
  d <= count is_blit (trace s) - count is_flip (trace s) <= d + 1.

(** a turn with a forced preview, a mouse motion and a quit *)
Definition quit_events : list SDL_Event :=
  [SDL_KEYDOWN SDLK_SPACE; SDL_MOUSEMOTION 3 4; SDL_QUIT].

Definition quit_tick : Tick :=
  {| tick_raised := None; tick_events := quit_events; tick_rendered := true;
     tick_wait := TimedOut; tick_frame_clock := 0; tick_clock := 0 |}.

(** a turn in which the window is resized *)
Definition resize_tick : Tick :=
  {| tick_raised := None; tick_events := [SDL_VIDEORESIZE 10 10];
     tick_rendered := false; tick_wait := TimedOut; tick_frame_clock := 0;
     tick_clock := 0 |}.

(** a collaborator that always fails *)
Definition never_ok (_ _ : Z) : bool := false.

(** a turn in which a frame is ready and nothing else happens *)
Definition frame_tick : Tick :=
  {| tick_raised := None; tick_events := []; tick_rendered := true;
     tick_wait := TimedOut; tick_frame_clock := 0; tick_clock := 0 |}.

(** ** The handshake protocol: shutdown *)

(** the display loop has not yet passed the handshake block that sees
    [g_quit] *)
Definition before_quit_handshake (m : MainPc) : bool :=
  match m with
  | M_poll _ | M_event_lock _ _ | M_event_locked _ _ | M_lock _ | M_locked _ =>
      true
  | _ => false
  end.

(** What holds of a quit: [g_cancelDraw] is raised with [g_quit]; after a
    quit the render thread publishes no further frame, and one that waits
    is woken by the next handshake block; the display loop is at
    [SDL_WaitThread] only after a quit; and the two threads are never
    inside their waits together. *)
Definition shutdown_inv (s : Protocol) : bool :=
  let f := p_flags s in
  (negb (g_quit f) || g_cancelDraw f)
  && (negb (g_quit f) ||
      match p_worker s with
      | W_ready | W_signalled => false
      | W_waiting => before_quit_handshake (p_main s)
      | _ => true
      end)
  && match p_main s with M_join | M_exit => g_quit f | _ => true end
  && match p_worker s, p_main s with
     | W_signalled, M_waiting | W_waiting, M_waiting => false
     | _, _ => true
     end.

(** the steps left to the end of [main] once the display loop is at
    [SDL_WaitThread] *)
Definition shutdown_steps (s : Protocol) : nat :=
  (match p_worker s with
   | W_scan => 3
   | W_lock | W_woken => 2
   | W_locked | W_resumed => 1
   | _ => 0
   end
   + match p_main s with M_join => 1 | _ => 0 end)%nat.

(** the display loop has left [while (!g_quit)] *)
Definition joining (s : Protocol) : bool :=
  match p_main s with M_join | M_exit => true | _ => false end.

(** the state after a quit event taken during the first scan *)
Definition quit_state : Protocol :=
  {| p_flags := {| g_quit := true; g_cancelDraw := true;
                   g_frameReady := false |};
     p_mutex := None; p_worker := W_scan; p_main := M_poll false |}.

(** the display loop at [SDL_WaitThread], the render thread still in its
    scan *)
Definition join_state : Protocol :=
  {| p_flags := {| g_quit := true; g_cancelDraw := true;
                   g_frameReady := false |};
     p_mutex := None; p_worker := W_scan; p_main := M_join |}.

(** ** Exact arithmetic: the floor of a rational *)

Lemma Qfloor_unique (x : Q) (m : Z) :
  (inject_Z m <= x)%Q -> (x < inject_Z (m + 1))%Q -> Qfloor x = m.
Proof.
  intros Hle Hlt.
  apply Z.le_antisymm.
  - apply Z.lt_succ_r. rewrite Zlt_Qlt.
    apply Qle_lt_trans with x; [apply Qfloor_le | exact Hlt].
  - rewrite <- (Qfloor_Z m). apply Qfloor_resp_le. exact Hle.
Qed.

Ltac zq := unfold Z.sub; rewrite ?inject_Z_plus, ?inject_Z_opp in *;
  change (inject_Z 1) with 1%Q in *.

Lemma Qfloor_add_Z (x : Q) (k : Z) : Qfloor (x + inject_Z k) = Qfloor x + k.
Proof.
  pose proof (Qfloor_le x). pose proof (Qlt_floor x).
  apply Qfloor_unique; zq; lra.
Qed.

Lemma Qfloor_opp (x : Q) :
  Qfloor (- x) =
  if Qeq_bool x (inject_Z (Qfloor x)) then - Qfloor x else - Qfloor x - 1.
Proof.
  pose proof (Qfloor_le x). pose proof (Qlt_floor x).
  destruct (Qeq_bool x (inject_Z (Qfloor x))) eqn:E.
  - apply Qeq_bool_eq in E. apply Qfloor_unique; zq; lra.
  - apply Qeq_bool_neq in E.
    apply Qfloor_unique; zq.
    + lra.
    + destruct (Qlt_le_dec (inject_Z (Qfloor x)) x); [lra|].
      exfalso. apply E. lra.
Qed.

Lemma Qfloor_Qred (x : Q) : Qfloor (Qred x) = Qfloor x.
Proof. apply Qfloor_comp, Qred_correct. Qed.

Ltac qc_norm := rewrite ?Qfloor_Qred; repeat rewrite Qred_correct.
Ltac qc_eq :=
  apply Qc_is_canon;
  cbn [this Q2Qc Qcplus Qcminus Qcmult Qcopp Qcinv Qcdiv];
  qc_norm.

Section ExactFloor.
Import Exact.

Lemma floor_add_int (x : Qc) (k : Z) :
  floor (x + of_Z k)%Qc = (floor x + of_Z k)%Qc.
Proof.
  unfold floor, of_Z. qc_eq.
  assert (E : Qfloor (x + Qred (inject_Z k)) = Qfloor (x + inject_Z k)).
  { apply Qfloor_comp. rewrite Qred_correct. reflexivity. }
  rewrite E, Qfloor_add_Z, inject_Z_plus. qc_norm. reflexivity.
Qed.

Lemma floor_opp (x : Qc) :
  floor (- x)%Qc =
  if Qc_eq_dec x (floor x) then (- floor x)%Qc
  else (- floor x - of_Z 1)%Qc.
Proof.
  assert (E : Qfloor (- x)%Qc = Qfloor (- (x : Q))%Q).
  { cbn [this Q2Qc Qcopp]. rewrite Qred_correct. reflexivity. }
  unfold floor at 1. rewrite E, Qfloor_opp.
  destruct (Qc_eq_dec x (floor x)) as [e|n].
  - assert (Qeq_bool x (inject_Z (Qfloor x)) = true) as ->.
    { apply Qeq_bool_iff. rewrite e at 1. unfold floor, of_Z.
      cbn [this Q2Qc]. apply Qred_correct. }
    unfold floor, of_Z. qc_eq. rewrite inject_Z_opp. reflexivity.
  - assert (Qeq_bool x (inject_Z (Qfloor x)) = false) as ->.
    { apply not_true_is_false. intro E1. apply Qeq_bool_iff in E1. apply n.
      unfold floor, of_Z. qc_eq. exact E1. }
    unfold floor, of_Z. qc_eq.
    unfold Z.sub. rewrite inject_Z_plus, inject_Z_opp. reflexivity.
Qed.

Lemma div_one (y : Qc) : (y / of_Z 1)%Qc = y.
Proof.
  unfold of_Z. change (Q2Qc (inject_Z 1)) with 1%Qc. field.
  exact Q_apart_0_1.
Qed.

Lemma two_neq_0 : of_Z 2 <> 0%Qc.
Proof. intro E. discriminate E. Qed.

(** [mod(x, 1)] has period 1 *)
Lemma mod1_period (x : Qc) (k : Z) :
  mod_ (fadd x (of_int k)) (of_int 1) = mod_ x (of_int 1).
Proof.
  unfold mod_. cbn [fadd fsub fmul fdiv ffloor of_int scalar].
  rewrite !div_one, floor_add_int.
  change (of_Z 1) with 1%Qc. ring.
Qed.

Lemma fold_integral (q v q0 : Qc) :
  (- (q * v) - q * - v - q0 = q * v - q * v - q0)%Qc.
Proof. ring. Qed.

Lemma fold_fractional (q v f q0 : Qc) :
  (- (q * v) - q * (- f - q0) - q0 =
   - (q * v - q * f - q0) + (q * q0 - q0 - q0))%Qc.
Proof. ring. Qed.

(** the triangle wave takes the same value at [c] and at [2 - c] *)
Lemma triangle_mirror (c : Qc) :
  fabs (fsub (mod_ (fsub (fsub (of_int 2) c) (of_int 1)) (of_int 2)) (of_int 1))
  = fabs (fsub (mod_ (fsub c (of_int 1)) (of_int 2)) (of_int 1)).
Proof.
  unfold mod_. cbn [fadd fsub fmul fdiv ffloor fabs of_int scalar].
  set (u := (c - of_Z 1)%Qc).
  assert (E : (of_Z 2 - c - of_Z 1 = - u)%Qc).
  { unfold u, of_Z. qc_eq. ring. }
  rewrite E.
  assert (E2 : (- u / of_Z 2 = - (u / of_Z 2))%Qc).
  { field. exact two_neq_0. }
  rewrite E2, floor_opp.
  set (v := (u / of_Z 2)%Qc).
  assert (U : u = (of_Z 2 * v)%Qc).
  { unfold v. field. exact two_neq_0. }
  destruct (Qc_eq_dec v (floor v)) as [e|n].
  - rewrite <- e. rewrite U. f_equal. apply fold_integral.
  - rewrite <- (Qcabs_opp (u - of_Z 2 * floor v - of_Z 1)%Qc).
    f_equal. rewrite U, fold_fractional.
    assert (Z0 : (of_Z 2 * of_Z 1 - of_Z 1 - of_Z 1 = 0)%Qc)
      by (apply Qc_is_canon; reflexivity).
    rewrite Z0. apply Qcplus_0_r.
Qed.
End ExactFloor.

Lemma vec4_Qc_eq (u v : vec4 Qc) :
  (cr u == cr v)%Q /\ (cg u == cg v)%Q /\ (cb u == cb v)%Q /\ (ca u == ca v)%Q ->
  u = v.
Proof.
  destruct u, v. cbn [cr cg cb ca]. intros (Hr & Hg & Hb & Ha).
  f_equal; apply Qc_is_canon; assumption.
Qed.

(** ** The texture sampler *)

Lemma wrap_repeat_period_exact (coord : vec2 Qc) (k : Z) :
  wrap Repeat (vec2_add_s coord (of_int k)) = wrap Repeat coord.
Proof.
  unfold wrap, vec2_mod, vec2_add_s, map2. cbn [vx vy].
  rewrite !mod1_period. reflexivity.
Qed.

Lemma wrap_mirror_symmetry_exact (coord : vec2 Qc) :
  wrap MirrorRepeat (s_sub_vec2 (of_int 2) coord) = wrap MirrorRepeat coord.
Proof.
  unfold wrap, vec2_abs, vec2_sub_s, vec2_mod, s_sub_vec2, map2. cbn [vx vy].
  rewrite !triangle_mirror. reflexivity.
Qed.

(** what binary32 makes of the two coordinates of C6 and of C7 *)
Example wrap_near_seam :
  wrap Repeat near_seam = quarters 4 1 /\
  wrap Repeat (vec2_add_s near_seam (of_int 1)) = quarters 0 1.
Proof. split; vm_compute; reflexivity. Qed.

Example wrap_near_middle :
  wrap MirrorRepeat near_middle
  = mk_vec2 (Binary32.lit 16777212 (-25)) (Binary32.lit 1 (-2)) /\
  wrap MirrorRepeat (s_sub_vec2 (of_int 2) near_middle) = quarters 2 1.
Proof. split; vm_compute; reflexivity. Qed.

(** C3 as stated fails: with no image loaded, [sample] at (0.25, 0.25) is
    not red; the vertical flip moves that coordinate into a green square. *)
Lemma checkerboard_quarter_not_red :
  sample (no_image Repeat) (quarters 1 1) <> red.
Proof. vm_compute. intro E. discriminate E. Qed.

(** C3 (amended): with no image loaded and under every wrap mode, the
    checkerboard taken at the flipped coordinate [uv] is red at (0.25, 0.25)
    and (0.75, 0.75) and green at (0.25, 0.75) and (0.75, 0.25); [sample],
    which flips the vertical coordinate first, therefore returns green at
    (0.25, 0.25) and (0.75, 0.75) and red at (0.25, 0.75) and
    (0.75, 0.25). *)
Theorem checkerboard_fallback (m : WrapMode) :
  (checkers (quarters 1 1) = red /\ checkers (quarters 3 3) = red /\
   checkers (quarters 1 3) = green /\ checkers (quarters 3 1) = green) /\
  (sample (no_image m) (quarters 1 1) = green /\
   sample (no_image m) (quarters 3 3) = green /\
   sample (no_image m) (quarters 1 3) = red /\
   sample (no_image m) (quarters 3 1) = red).
Proof. destruct m; vm_compute; repeat split. Qed.

(** the same four samples in exact arithmetic *)
Lemma checkerboard_fallback_exact (m : WrapMode) :
  sample (no_image m) (exact_quarters 1 1) = green /\
  sample (no_image m) (exact_quarters 3 3) = green /\
  sample (no_image m) (exact_quarters 1 3) = red /\
  sample (no_image m) (exact_quarters 3 1) = red.
Proof. destruct m; repeat split; apply vec4_Qc_eq; vm_compute; repeat split. Qed.

Lemma same_float_eq (x y : Binary32.float) : same_float x y = true -> x = y.
Proof.
  destruct x as [a|a| |s m e], y as [b|b| |s' m' e']; cbn;
    try discriminate; try reflexivity.
  - intros E. apply Bool.eqb_prop in E. congruence.
  - intros E. apply Bool.eqb_prop in E. congruence.
  - intros E. apply andb_prop in E as [E E3]. apply andb_prop in E as [E1 E2].
    apply Bool.eqb_prop in E1. apply Pos.eqb_eq in E2. apply Z.eqb_eq in E3.
    congruence.
Qed.

Lemma same_colour_eq (u v : vec4 Binary32.float) :
  same_colour u v = true -> u = v.
Proof.
  destruct u, v. unfold same_colour. cbn [cr cg cb ca]. intros E.
  apply andb_prop in E as [E E4]. apply andb_prop in E as [E E3].
  apply andb_prop in E as [E1 E2].
  apply same_float_eq in E1, E2, E3, E4. congruence.
Qed.

Lemma agree_on_grid_spec (s : sampler2D)
      (f : vec2 Binary32.float -> vec2 Binary32.float) (a b : Z) :
  agree_on_grid s f = true -> In a (around 8) -> In b (around 8) ->
  sample s (f (quarters a b)) = sample s (quarters a b).
Proof.
  unfold agree_on_grid. intros E Ha Hb.
  rewrite forallb_forall in E. specialize (E a Ha).
  rewrite forallb_forall in E. exact (same_colour_eq _ _ (E b Hb)).
Qed.

(** where binary32 computes without rounding, it keeps both laws: on the
    quarters between -2 and 2, shifted by up to three periods, and
    mirrored about 1 *)
Lemma repeat_wrap_period_on_grid (a b k : Z) :
  In a (around 8) -> In b (around 8) -> In k (around 3) ->
  sample (no_image Repeat) (vec2_add_s (quarters a b) (of_int k))
  = sample (no_image Repeat) (quarters a b).
Proof.
  intros Ha Hb Hk.
  assert (E : forallb (fun k => agree_on_grid (no_image Repeat)
                                  (fun c => vec2_add_s c (of_int k)))
                      (around 3) = true) by (vm_compute; reflexivity).
  rewrite forallb_forall in E.
  exact (agree_on_grid_spec _ _ a b (E k Hk) Ha Hb).
Qed.

Lemma mirror_repeat_symmetry_on_grid (a b : Z) :
  In a (around 8) -> In b (around 8) ->
  sample (no_image MirrorRepeat) (s_sub_vec2 (of_int 2) (quarters a b))
  = sample (no_image MirrorRepeat) (quarters a b).
Proof.
  intros Ha Hb.
  assert (E : agree_on_grid (no_image MirrorRepeat) (s_sub_vec2 (of_int 2))
              = true) by (vm_compute; reflexivity).
  exact (agree_on_grid_spec _ _ a b E Ha Hb).
Qed.


(** the law of C6 in exact arithmetic, for comparison: for every image or
    none, every coordinate [coord] and every integer [k], [sample] under
    Repeat gives at [coord + k] what it gives at [coord] *)
Lemma repeat_wrap_period_exact
        (img : option SDL_Surface) (coord : vec2 Qc) (k : Z) :
  sample {| m_image := img; m_wrapMode := Repeat |}
         (vec2_add_s coord (of_int k))
  = sample {| m_image := img; m_wrapMode := Repeat |} coord.
Proof.
  unfold sample. cbn [m_wrapMode m_image].
  rewrite wrap_repeat_period_exact. reflexivity.
Qed.

(** with the [step] of the shading language the checkerboard tells the
    two coordinates apart as well *)
Example mirror_repeat_checkerboard_binary32 :
  sample (no_image MirrorRepeat) (s_sub_vec2 (of_int 2) near_middle) = red /\
  sample (no_image MirrorRepeat) near_middle = green.
Proof. split; vm_compute; reflexivity. Qed.


(** the law of C7 in exact arithmetic, for comparison: for every image or
    none and every coordinate [coord], [sample] under MirrorRepeat gives
    at [2 - coord] what it gives at [coord] *)
Lemma mirror_repeat_symmetry_exact
        (img : option SDL_Surface) (coord : vec2 Qc) :
  sample {| m_image := img; m_wrapMode := MirrorRepeat |}
         (s_sub_vec2 (of_int 2) coord)
  = sample {| m_image := img; m_wrapMode := MirrorRepeat |} coord.
Proof.
  unfold sample. cbn [m_wrapMode m_image].
  rewrite wrap_mirror_symmetry_exact. reflexivity.
Qed.


(** *** The two laws in binary32, where the coordinates are exact *)










(** ** The render thread: stores *)

Lemma store_byte_inv (mem : list Z) (off v : Z) (mem' : list Z) :
  store_byte mem off v = Some mem' ->
  0 <= off < Z.of_nat (List.length mem) /\
  mem' = firstn (Z.to_nat off) mem ++ v :: skipn (S (Z.to_nat off)) mem.
Proof.
  unfold store_byte.
  destruct (Z.leb_spec 0 off); [|discriminate].
  destruct (Z.ltb_spec off (Z.of_nat (List.length mem))); [|discriminate].
  intros E. split; [lia|]. symmetry.
  exact (f_equal (fun o => match o with Some m => m | None => mem' end) E).
Qed.

Lemma store_byte_length (mem : list Z) (off v : Z) (mem' : list Z) :
  store_byte mem off v = Some mem' -> List.length mem' = List.length mem.
Proof.
  intros E. apply store_byte_inv in E as [Hr ->].
  rewrite length_app, length_firstn.
  change (List.length (v :: skipn (S (Z.to_nat off)) mem))
    with (S (List.length (skipn (S (Z.to_nat off)) mem))).
  rewrite length_skipn. lia.
Qed.

Lemma store_byte_in_range (mem : list Z) (off v : Z) :
  0 <= off < Z.of_nat (List.length mem) ->
  exists mem', store_byte mem off v = Some mem'.
Proof.
  intros [Hlo Hhi]. unfold store_byte.
  apply Z.leb_le in Hlo. apply Z.ltb_lt in Hhi. rewrite Hlo, Hhi.
  eexists. reflexivity.
Qed.

Lemma load_store_same (mem : list Z) (off v : Z) (mem' : list Z) :
  store_byte mem off v = Some mem' -> load_byte mem' off = v.
Proof.
  intros E. apply store_byte_inv in E as [Hr ->]. unfold load_byte.
  destruct (Z.ltb_spec off 0); [lia|].
  rewrite app_nth2; rewrite length_firstn; [|lia].
  replace (Z.to_nat off - Nat.min (Z.to_nat off) (List.length mem))%nat
    with O by lia.
  reflexivity.
Qed.

Lemma load_store_other (mem : list Z) (off v : Z) (mem' : list Z) (o : Z) :
  store_byte mem off v = Some mem' -> o <> off ->
  load_byte mem' o = load_byte mem o.
Proof.
  intros E Hne. apply store_byte_inv in E as [Hr ->]. unfold load_byte.
  destruct (Z.ltb_spec o 0); [reflexivity|].
  destruct (Z_lt_le_dec o off) as [Hlt|Hge].
  - rewrite app_nth1 by (rewrite length_firstn; lia).
    rewrite nth_firstn.
    destruct (Nat.ltb_spec (Z.to_nat o) (Z.to_nat off)); [reflexivity|lia].
  - rewrite app_nth2 by (rewrite length_firstn; lia).
    rewrite length_firstn.
    replace (Z.to_nat o - Nat.min (Z.to_nat off) (List.length mem))%nat
      with (S (Z.to_nat o - S (Z.to_nat off)))%nat by lia.
    change (nth (S (Z.to_nat o - S (Z.to_nat off)))
                (v :: skipn (S (Z.to_nat off)) mem) 0)
      with (nth (Z.to_nat o - S (Z.to_nat off))
                (skipn (S (Z.to_nat off)) mem) 0).
    rewrite nth_skipn. f_equal. lia.
Qed.

(** ** The render thread: the loops *)

Section RenderProofs.
Context {T : Type} `{Scalar T}.
Variable scalar_count : Z.
Variable shader : vec2 T -> vec4 T.
Variable cancelDraw : Z -> bool.

Lemma lanes_length : List.length (lanes scalar_count) = Z.to_nat scalar_count.
Proof. unfold lanes. rewrite length_map, length_seq. reflexivity. Qed.

Lemma batch_coords_length (x : Z) (fy : T) :
  List.length (batch_coords scalar_count x fy) = Z.to_nat scalar_count.
Proof. unfold batch_coords. rewrite length_map. apply lanes_length. Qed.

Lemma batch_coords_y (x : Z) (fy : T) (c : vec2 T) :
  In c (batch_coords scalar_count x fy) -> vy c = fy.
Proof.
  unfold batch_coords. rewrite in_map_iff. intros (i & <- & _). reflexivity.
Qed.

(** a batch that lies inside the pixel array is stored, byte after byte *)
Lemma store_lanes_ok (colors : list (vec4 T)) :
  forall (ptr : Z) (mem : list Z),
    0 <= ptr ->
    ptr + 3 * Z.of_nat (List.length colors) <= Z.of_nat (List.length mem) ->
    exists mem',
      store_lanes colors ptr mem
      = Some (ptr + 3 * Z.of_nat (List.length colors), mem') /\
      List.length mem' = List.length mem.
Proof.
  induction colors as [|c rest IH]; intros ptr mem Hlo Hhi.
  - exists mem. cbn [store_lanes List.length]. split; [f_equal; f_equal; lia|reflexivity].
  - cbn [List.length] in Hhi. cbn [store_lanes].
    destruct (store_byte_in_range mem ptr (quantize (cr c))) as [m1 E1]; [lia|].
    rewrite E1. pose proof (store_byte_length _ _ _ _ E1) as L1.
    destruct (store_byte_in_range m1 (ptr + 1) (quantize (cg c))) as [m2 E2];
      [lia|].
    rewrite E2. pose proof (store_byte_length _ _ _ _ E2) as L2.
    destruct (store_byte_in_range m2 (ptr + 2) (quantize (cb c))) as [m3 E3];
      [lia|].
    rewrite E3. pose proof (store_byte_length _ _ _ _ E3) as L3.
    destruct (IH (ptr + 3) m3) as (mem' & E & L); [lia|lia|].
    exists mem'. rewrite E. split; [|congruence].
    f_equal. f_equal. cbn [List.length]. lia.
Qed.

(** the red, green and blue bytes of a lane, in this order *)
Lemma store_lanes_rgb (c : vec4 T) (ptr : Z) (mem : list Z) (ptr' : Z)
      (mem' : list Z) :
  store_lanes [c] ptr mem = Some (ptr', mem') ->
  ptr' = ptr + 3 /\
  load_byte mem' ptr = quantize (cr c) /\
  load_byte mem' (ptr + 1) = quantize (cg c) /\
  load_byte mem' (ptr + 2) = quantize (cb c).
Proof.
  cbn [store_lanes].
  destruct (store_byte mem ptr (quantize (cr c))) as [m1|] eqn:E1;
    [|discriminate].
  destruct (store_byte m1 (ptr + 1) (quantize (cg c))) as [m2|] eqn:E2;
    [|discriminate].
  destruct (store_byte m2 (ptr + 2) (quantize (cb c))) as [m3|] eqn:E3;
    [|discriminate].
  intros [= <- <-]. split; [reflexivity|]. repeat split.
  - rewrite (load_store_other _ _ _ _ ptr E3) by lia.
    rewrite (load_store_other _ _ _ _ ptr E2) by lia.
    exact (load_store_same _ _ _ _ E1).
  - rewrite (load_store_other _ _ _ _ (ptr + 1) E3) by lia.
    exact (load_store_same _ _ _ _ E2).
  - exact (load_store_same _ _ _ _ E3).
Qed.

(** the clamp moves a batch that would overrun the row back by fewer
    pixels than a batch has *)
Lemma clamp_batch_shift (w x ptr : Z) :
  x < w ->
  let (x1, ptr1) := clamp_batch (w - scalar_count) x ptr in
  x1 = Z.min x (w - scalar_count) /\
  ptr1 - 3 * x1 = ptr - 3 * x /\
  0 <= x - x1 <= Z.max 0 (scalar_count - 1).
Proof.
  intros Hx. unfold clamp_batch.
  destruct (Z.ltb_spec (w - scalar_count) x); lia.
Qed.

Lemma row_loop_ok (w h pitch y : Z) (len : nat) :
  0 < scalar_count <= w -> 0 <= y < h ->
  0 <= y * pitch -> y * pitch + 3 * w <= Z.of_nat len ->
  forall (fuel : nat) (x : Z) (mem : list Z) (log : list (Invocation T)),
    0 <= x <= w -> w - x < Z.of_nat fuel -> List.length mem = len ->
    exists mem' log',
      row_loop scalar_count shader fuel w y (of_int (h - 1 - y)) x
               (y * pitch + 3 * x) mem log
      = Ok (mem', log ++ log') /\
      List.length mem' = len /\
      (forall inv, In inv log' -> batch_ok scalar_count w h pitch inv /\ inv_row inv = y) /\
      (forall c, x <= c < w ->
                 exists inv, In inv log' /\
                             inv_x inv <= c < inv_x inv + scalar_count).
Proof.
  intros HN Hy Hbase Hend.
  induction fuel as [|fuel IH]; intros x mem log Hx Hfuel Hlen; [lia|].
  cbn [row_loop].
  destruct (Z.ltb_spec x w) as [Hlt|Hge].
  - pose proof (clamp_batch_shift w x (y * pitch + 3 * x) Hlt) as Hc.
    destruct (clamp_batch (w - scalar_count) x (y * pitch + 3 * x))
      as [x1 ptr1].
    destruct Hc as (Hx1 & Hptr & Hshift).
    assert (Hp : ptr1 = y * pitch + 3 * x1) by lia.
    set (coords := batch_coords scalar_count x1 (of_int (h - 1 - y))).
    destruct (store_lanes_ok (map shader coords) ptr1 mem) as (m2 & E & L).
    { lia. }
    { rewrite length_map. unfold coords. rewrite batch_coords_length. lia. }
    rewrite E.
    rewrite length_map in *. unfold coords in E |- *.
    rewrite batch_coords_length in *.
    replace (ptr1 + 3 * Z.of_nat (Z.to_nat scalar_count))
      with (y * pitch + 3 * (x1 + scalar_count)) by lia.
    destruct (IH (x1 + scalar_count) m2
                 (log ++ [{| inv_row := y; inv_x := x1; inv_ptr := ptr1;
                             inv_coord :=
                               batch_coords scalar_count x1
                                            (of_int (h - 1 - y)) |}]))
      as (mem' & log' & E' & L' & Hall & Hcov); [lia|lia|congruence|].
    exists mem'. eexists (_ :: log').
    rewrite E', <- app_assoc. cbn [app]. split; [reflexivity|].
    split; [exact L'|]. split.
    + intros inv [<-|Hin]; [|exact (Hall inv Hin)].
      unfold batch_ok. cbn [inv_row inv_x inv_ptr inv_coord].
      repeat split; try lia; reflexivity.
    + intros c Hc.
      destruct (Z_lt_le_dec c (x1 + scalar_count)) as [Hin|Hout].
      * eexists. split; [left; reflexivity|]. cbn [inv_x]. lia.
      * destruct (Hcov c) as (inv & Hin & Hr); [lia|].
        exists inv. split; [right; exact Hin|exact Hr].
  - exists mem, []. rewrite app_nil_r. split; [reflexivity|].
    split; [exact Hlen|]. split; [intros inv []|intros c Hc; lia].
Qed.

Lemma scan_loop_ok (w h pitch : Z) (len : nat) :
  0 < scalar_count <= w -> 3 * w <= pitch -> h * pitch <= Z.of_nat len ->
  forall (fuel : nat) (y : Z) (mem : list Z) (log : list (Invocation T)),
    0 <= y <= h -> h - y < Z.of_nat fuel -> List.length mem = len ->
    exists mem' log',
      scan_loop scalar_count shader cancelDraw fuel w h pitch y mem log
      = Ok (mem', log ++ log') /\
      List.length mem' = len /\
      (forall inv, In inv log' -> batch_ok scalar_count w h pitch inv /\ y <= inv_row inv) /\
      (forall r, y <= r < h ->
                 (forall r', y <= r' <= r -> cancelDraw r' = false) ->
                 forall c, 0 <= c < w ->
                   exists inv, In inv log' /\ inv_row inv = r /\
                               inv_x inv <= c < inv_x inv + scalar_count).
Proof.
  intros HN Hpitch Hsize.
  induction fuel as [|fuel IH]; intros y mem log Hy Hfuel Hlen; [lia|].
  cbn [scan_loop].
  destruct (cancelDraw y) eqn:Hcancel; cbn [negb andb].
  - exists mem, []. rewrite app_nil_r. split; [reflexivity|].
    split; [exact Hlen|]. split; [intros inv []|].
    intros r Hr Hnone. rewrite (Hnone y) in Hcancel by lia. discriminate.
  - destruct (Z.ltb_spec y h) as [Hlt|Hge].
    + destruct (row_loop_ok w h pitch y len HN) with
        (fuel := S (Z.to_nat w)) (x := 0) (mem := mem) (log := log)
        as (m1 & l1 & E1 & L1 & Hall1 & Hcov1); try lia; try nia.
      replace (y * pitch + 3 * 0) with (y * pitch) in E1 by lia.
      rewrite E1.
      destruct (IH (y + 1) m1 (log ++ l1))
        as (mem' & log' & E' & L' & Hall & Hcov); [lia|lia|exact L1|].
      exists mem', (l1 ++ log'). rewrite E', app_assoc.
      split; [reflexivity|]. split; [exact L'|]. split.
      * intros inv Hin. apply in_app_iff in Hin as [Hin|Hin].
        -- destruct (Hall1 inv Hin) as [Hok Hrow]. split; [exact Hok|lia].
        -- destruct (Hall inv Hin) as [Hok Hrow]. split; [exact Hok|lia].
      * intros r Hr Hnone c Hc.
        destruct (Z.eq_dec r y) as [->|Hne].
        -- destruct (Hcov1 c) as (inv & Hin & Hx); [lia|].
           exists inv. split; [apply in_app_iff; left; exact Hin|].
           split; [exact (proj2 (Hall1 inv Hin))|exact Hx].
        -- destruct (Hcov r) with (c := c) as (inv & Hin & Hrow & Hx);
             [lia| |lia|].
           { intros r' Hr'. apply Hnone. lia. }
           exists inv. split; [apply in_app_iff; right; exact Hin|].
           split; [exact Hrow|exact Hx].
    + exists mem, []. rewrite app_nil_r. split; [reflexivity|].
      split; [exact Hlen|]. split; [intros inv []|].
      intros r Hr. lia.
Qed.

(** A scan of a well-formed surface ends without a fault; every batch it
    evaluates lies inside its row and is stored at the offset of its first
    pixel; every pixel of every scanline reached before a cancel is
    covered by a batch. *)
Lemma scan_ok (bmp : SDL_Surface) :
  well_formed scalar_count bmp ->
  exists mem log,
    renderThread_scan scalar_count shader cancelDraw bmp = Ok (mem, log) /\
    List.length mem = List.length (surf_pixels bmp) /\
    (forall inv, In inv log ->
                 batch_ok scalar_count (surf_w bmp) (surf_h bmp) (surf_pitch bmp) inv) /\
    (forall r, 0 <= r < surf_h bmp ->
               (forall r', 0 <= r' <= r -> cancelDraw r' = false) ->
               forall c, 0 <= c < surf_w bmp ->
                 exists inv, In inv log /\ inv_row inv = r /\
                             inv_x inv <= c < inv_x inv + scalar_count).
Proof.
  intros (HN & Hh & Hpitch & Hsize). unfold renderThread_scan.
  destruct (scan_loop_ok (surf_w bmp) (surf_h bmp) (surf_pitch bmp)
                         (List.length (surf_pixels bmp)) HN Hpitch Hsize
                         (S (Z.to_nat (surf_h bmp))) 0 (surf_pixels bmp) [])
    as (mem & log & E & L & Hall & Hcov); [lia|lia|reflexivity|].
  exists mem, log. cbn [app] in E. split; [exact E|]. split; [exact L|].
  split; [|exact Hcov].
  intros inv Hin. exact (proj1 (Hall inv Hin)).
Qed.
End RenderProofs.


(** ** The render thread: the properties of the specification *)

(** C2: the byte stored for a channel is not
    truncate(clamp(c, 0, 1) * 255 + 0.5).  The scan multiplies the clamped
    channel by [255 + 0.5f] and truncates: for c = 0.5 it stores 127, where
    the rounding of the specification gives 128.  The bytes of a pixel do
    follow each other as red, green, blue ([store_lanes_rgb]). *)
Theorem quantize_half_is_127 :
  quantize (Binary32.lit 1 (-1)) = 127 /\
  quantize_rounded (Binary32.lit 1 (-1)) = 128 /\
  scanned_pixels
    (renderThread_scan 1 (constant_shader
               (mk_vec4 (Binary32.lit 0 0) (Binary32.lit 1 (-1))
                        (Binary32.lit 1 0) (Binary32.lit 1 0)))
          never (new_surface 1 1))
  = Some [0; 127; 255; 0].
Proof. repeat split; vm_compute; reflexivity. Qed.

(** the same two values in exact arithmetic: 0.5 * 255.5 = 127.75 *)
Lemma quantize_half_exact :
  quantize (Q2Qc (1 # 2)) = 127 /\ quantize_rounded (Q2Qc (1 # 2)) = 128.
Proof. split; vm_compute; reflexivity. Qed.

(** C4: with four lanes and a row of one pixel the clamp puts the only
    batch at x = -3, left of the row, and its first store falls outside the
    pixel array. *)
Theorem narrow_row_batch_leaves_row :
  batch_starts 4 2 1 0 = [-3] /\
  renderThread_scan 4 (constant_shader red) never (new_surface 1 1)
  = OutOfBounds /\
  batch_starts 4 4 3 0 = [-1].
Proof. repeat split; vm_compute; reflexivity. Qed.

(** What holds of C4 when a batch fits the row: every batch of a scan
    lies inside its row; every pixel of a scanline the scan reaches is in
    some batch; the clamp moves a batch left by at most [scalar_count - 1]
    pixels ([clamp_batch_shift]). *)
Lemma batches_stay_in_row {T : Type} `{Scalar T} (scalar_count : Z)
      (shader : vec2 T -> vec4 T) (cancelDraw : Z -> bool)
      (bmp : SDL_Surface) :
  well_formed scalar_count bmp ->
  exists mem log,
    renderThread_scan scalar_count shader cancelDraw bmp = Ok (mem, log) /\
    (forall inv, In inv log ->
                 0 <= inv_x inv /\ inv_x inv + scalar_count <= surf_w bmp) /\
    (forall r, 0 <= r < surf_h bmp ->
               (forall r', 0 <= r' <= r -> cancelDraw r' = false) ->
               forall c, 0 <= c < surf_w bmp ->
                 exists inv, In inv log /\ inv_row inv = r /\
                             inv_x inv <= c < inv_x inv + scalar_count).
Proof.
  intros Hwf.
  destruct (scan_ok scalar_count shader cancelDraw bmp Hwf)
    as (mem & log & E & _ & Hall & Hcov).
  exists mem, log. split; [exact E|]. split; [|exact Hcov].
  intros inv Hin. destruct (Hall inv Hin) as (_ & Hx0 & Hx1 & _).
  split; assumption.
Qed.

Lemma batch_coords_nonempty {T : Type} `{Scalar T} (scalar_count x : Z)
      (fy : T) :
  0 < scalar_count ->
  exists c, In c (batch_coords scalar_count x fy).
Proof.
  intros HN. unfold batch_coords, lanes.
  destruct (Z.to_nat scalar_count) as [|n] eqn:E; [lia|].
  cbn [seq map]. eexists. left. reflexivity.
Qed.

(** C9: on a well-formed surface the scan ends, every invocation of the
    shader it makes for scanline [y] (counted from the top, stored at byte
    offset [y * pitch]) has [gl_FragCoord.y = h - 1 - y] in every lane,
    and every scanline reached before a cancel has such an invocation. *)
Theorem fragcoord_y_from_bottom {T : Type} `{Scalar T} (scalar_count : Z)
        (shader : vec2 T -> vec4 T) (cancelDraw : Z -> bool)
        (bmp : SDL_Surface) :
  well_formed scalar_count bmp ->
  exists mem log,
    renderThread_scan scalar_count shader cancelDraw bmp = Ok (mem, log) /\
    (forall inv, In inv log ->
       0 <= inv_row inv < surf_h bmp /\
       inv_ptr inv = inv_row inv * surf_pitch bmp + 3 * inv_x inv /\
       forall c, In c (inv_coord inv) ->
                 vy c = of_int (surf_h bmp - 1 - inv_row inv)) /\
    (forall y, 0 <= y < surf_h bmp ->
       (forall y', 0 <= y' <= y -> cancelDraw y' = false) ->
       exists inv c, In inv log /\ inv_row inv = y /\
                     In c (inv_coord inv) /\
                     vy c = of_int (surf_h bmp - 1 - y)).
Proof.
  intros Hwf.
  destruct (scan_ok scalar_count shader cancelDraw bmp Hwf)
    as (mem & log & E & _ & Hall & Hcov).
  destruct Hwf as (HN & _).
  exists mem, log. split; [exact E|]. split.
  - intros inv Hin. destruct (Hall inv Hin) as (Hrow & _ & _ & Hptr & Hco).
    split; [exact Hrow|]. split; [exact Hptr|].
    intros c Hc. rewrite Hco in Hc. exact (batch_coords_y _ _ _ _ Hc).
  - intros y Hy Hnone.
    destruct (Hcov y Hy Hnone 0) as (inv & Hin & Hrow & _); [lia|].
    destruct (Hall inv Hin) as (_ & _ & _ & _ & Hco).
    destruct (batch_coords_nonempty scalar_count (inv_x inv)
                (of_int (surf_h bmp - 1 - inv_row inv))) as [c Hc]; [lia|].
    exists inv, c. split; [exact Hin|]. split; [exact Hrow|].
    rewrite Hco. split; [exact Hc|].
    rewrite <- Hrow. exact (batch_coords_y _ _ _ _ Hc).
Qed.

Lemma fragcoord_y_from_bottom_witness :
  well_formed 2 (new_surface 5 2) /\
  exists mem log,
    renderThread_scan 2 (constant_shader red) never (new_surface 5 2)
    = Ok (mem, log) /\
    (forall inv, In inv log ->
       0 <= inv_row inv < 2 /\
       inv_ptr inv = inv_row inv * 16 + 3 * inv_x inv /\
       forall c, In c (inv_coord inv) ->
                 vy c = of_int (2 - 1 - inv_row inv)) /\
    (forall y, 0 <= y < 2 ->
       (forall y', 0 <= y' <= y -> never y' = false) ->
       exists inv c, In inv log /\ inv_row inv = y /\
                     In c (inv_coord inv) /\ vy c = of_int (2 - 1 - y)).
Proof.
  assert (Hwf : well_formed 2 (new_surface 5 2)).
  { unfold well_formed. vm_compute.
    repeat split; try reflexivity; intro E; discriminate E. }
  split; [exact Hwf|].
  exact (fragcoord_y_from_bottom 2 (constant_shader red) never
                                 (new_surface 5 2) Hwf).
Defined.


(** ** The display loop: the consumer side of the handshake *)

Section HandshakeProofs.
Context {T : Type} `{Scalar T}.
Variable surface_ok : Z -> Z -> bool.
Variable fps : Z -> T.

(** C8: in a turn of the display loop that is not a quit, the handshake
    block does the following.  On a forced preview (space) with no frame
    ready it blits, raises no consumed signal, and leaves the three flags
    and the published time and mouse as they were (the whole shared state,
    when no resize is pending).  The consumed signal is raised only when
    the consumption was unforced or a frame was ready; and when the block
    consumes in that case and ends normally, it has published time and
    mouse, cleared [g_cancelDraw] and [g_frameReady] and raised the
    signal. *)
Theorem forced_preview_keeps_shared_state
        (blitNow : bool) (wait : WaitResult) (frame_clock : Z)
        (s : MainState T) :
  g_quit (flags (shared s)) = false ->
  let ready := g_frameReady (flags (shared s)) in
  let s' := final_state (handshake surface_ok fps blitNow wait frame_clock s) in
  exists rest,
    trace s' = trace s ++ rest /\
    (blitNow = true -> ready = false ->
     In BlitSurface rest /\ ~ In SignalFrameReceived rest /\
     flags (shared s') = flags (shared s) /\
     sb_time (sandbox (shared s')) = sb_time (sandbox (shared s)) /\
     sb_mouse (sandbox (shared s')) = sb_mouse (sandbox (shared s)) /\
     (pendingResize (locals s) = false -> shared s' = shared s)) /\
    (In SignalFrameReceived rest -> blitNow = false \/ ready = true) /\
    (forall s'',
        handshake surface_ok fps blitNow wait frame_clock s = Normal true s'' ->
        blitNow = false \/ ready = true ->
        In SignalFrameReceived rest /\
        g_cancelDraw (flags (shared s')) = false /\
        g_frameReady (flags (shared s')) = false /\
        sb_time (sandbox (shared s')) = time (locals s) /\
        sb_mouse (sandbox (shared s'))
        = vec2_div (mousePosition (locals s))
                   (mk_vec2 (of_int (fst (screen (locals s))))
                            (of_int (snd (screen (locals s)))))).
Proof.
  destruct s as [[[q c r] sb surf] [scr ts fr tm mp pr mpr lf] tr].
  cbn [shared flags g_quit g_frameReady locals pendingResize].
  intros ->.
  unfold handshake, resizeOrCreateSurface, publish, emit, when, modify, gets,
    bind, ret, throw.
  destruct blitNow, r, wait, pr; cbn -[new_surface];
    try (match goal with
         | |- context [surface_ok ?a ?b] => destruct (surface_ok a b) eqn:E
         end; cbn -[new_surface]);
    rewrite <- ?app_assoc; cbn [app];
    (eexists; split; [try reflexivity; symmetry; apply app_nil_r|]);
    cbn; intuition (try discriminate; try congruence).
Qed.
End HandshakeProofs.

Lemma forced_preview_keeps_shared_state_witness :
  exists rest,
    trace (final_state (handshake always_ok no_fps true TimedOut 0
                                  (running_state 64 32)))
    = trace (running_state 64 32) ++ rest /\
    In BlitSurface rest /\ ~ In SignalFrameReceived rest /\
    shared (final_state (handshake always_ok no_fps true TimedOut 0
                                   (running_state 64 32)))
    = shared (running_state 64 32).
Proof.
  destruct (forced_preview_keeps_shared_state
              always_ok no_fps true TimedOut 0 (running_state 64 32)
              eq_refl) as (rest & Htrace & Hforced & _).
  destruct (Hforced eq_refl eq_refl) as (Hblit & Hsig & _ & _ & _ & Hshared).
  exists rest. split; [exact Htrace|]. split; [exact Hblit|].
  split; [exact Hsig|]. exact (Hshared eq_refl).
Defined.

(** ** [main]: the command line and the top level *)

Section MainProofs.
Context {T : Type} `{Scalar T}.
Variable read : string -> option (Z * Z).
Variable sdl_init_ok : bool.
Variable video_mode_ok : Z -> Z -> bool.
Variable surface_ok : Z -> Z -> bool.
Variable seconds : Z -> T -> T.
Variable fps : Z -> T.

Ltac unfold_setup :=
  unfold try_block, resizeOrCreateScreen, resizeOrCreateSurface, emit, when,
    modify, gets, bind, ret, throw.

Lemma check_resolution_inl (w h : Z) (m : Message) :
  check_resolution (w, h) = inl m ->
  (w <= 0 \/ h < 0) /\ m = invalid_resolution w h.
Proof.
  unfold check_resolution.
  destruct (Z.leb_spec w 0); cbn [orb];
    [|destruct (Z.ltb_spec h 0)]; intros [= <-]; split; (lia || reflexivity).
Qed.

Lemma check_resolution_rejects (w h : Z) :
  w <= 0 \/ h < 0 -> check_resolution (w, h) = inl (invalid_resolution w h).
Proof.
  intros Hbad. unfold check_resolution.
  destruct (Z.leb_spec w 0); cbn [orb]; [reflexivity|].
  destruct (Z.ltb_spec h 0); [reflexivity|lia].
Qed.

Lemma check_resolution_accepts (w h : Z) :
  0 < w -> 0 <= h -> check_resolution (w, h) = inr (w, h).
Proof.
  intros Hw Hh. unfold check_resolution.
  destruct (Z.leb_spec w 0); cbn [orb]; [lia|].
  destruct (Z.ltb_spec h 0); [lia|reflexivity].
Qed.

Lemma setup_init_fails (w h : Z) (ticks : list Tick) :
  sdl_init_ok = false ->
  try_block sdl_init_ok video_mode_ok surface_ok seconds fps w h ticks
            initial_state
  = Thrown (runtime_error "Unable to init SDL")
           {| shared := shared initial_state; locals := locals initial_state;
              trace := [CoutHelp; SdlInit] |}.
Proof. intros E. unfold_setup. rewrite E. reflexivity. Qed.

Lemma setup_screen_fails (w h : Z) (ticks : list Tick) :
  sdl_init_ok = true -> video_mode_ok w h = false ->
  try_block sdl_init_ok video_mode_ok surface_ok seconds fps w h ticks
            initial_state
  = Thrown (runtime_error "Unable to set video mode")
           {| shared := shared initial_state; locals := locals initial_state;
              trace := [CoutHelp; SdlInit; SetVideoMode w h] |}.
Proof.
  intros E1 E2. unfold_setup. rewrite E1. cbn. rewrite E2. reflexivity.
Qed.

Lemma setup_surface_fails (w h : Z) (ticks : list Tick) :
  sdl_init_ok = true -> video_mode_ok w h = true -> surface_ok w h = false ->
  exists s,
    try_block sdl_init_ok video_mode_ok surface_ok seconds fps w h ticks
              initial_state
    = Thrown (runtime_error "Unable to create surface") s /\
    trace s = [CoutHelp; SdlInit; SetVideoMode w h; CreateRGBSurface w h].
Proof.
  intros E1 E2 E3. unfold_setup. rewrite E1. cbn. rewrite E2. cbn. rewrite E3.
  eexists. split; reflexivity.
Qed.

(** after a setup without failure the display loop starts in
    [running_state] *)
Lemma setup_ok (w h : Z) (ticks : list Tick) :
  sdl_init_ok = true -> video_mode_ok w h = true -> surface_ok w h = true ->
  try_block sdl_init_ok video_mode_ok surface_ok seconds fps w h ticks
            initial_state
  = bind (display_loop video_mode_ok surface_ok seconds fps ticks)
         (fun left =>
            bind (when left (bind (emit CoutWaiting) (fun _ => emit WaitThread)))
                 (fun _ => ret left))
         (running_state w h).
Proof.
  intros E1 E2 E3. unfold_setup. rewrite E1. cbn -[new_surface display_loop].
  rewrite E2. cbn -[new_surface display_loop]. rewrite E3. reflexivity.
Qed.

Lemma first_tick_raises (w h : Z) (t : Tick) (rest : list Tick) (e : Exn) :
  sdl_init_ok = true -> video_mode_ok w h = true -> surface_ok w h = true ->
  tick_raised t = Some e ->
  try_block sdl_init_ok video_mode_ok surface_ok seconds fps w h (t :: rest)
            initial_state
  = Thrown e (running_state w h).
Proof.
  intros E1 E2 E3 E4. rewrite (setup_ok w h _ E1 E2 E3).
  unfold bind. cbn [display_loop]. unfold bind, gets, iteration, bind.
  cbn [running_state shared flags g_quit]. rewrite E4. reflexivity.
Qed.

(** C10: [main] ends with code 1 only out of the argument check, with
    nothing but the message printed; once the resolution is accepted,
    every failure thrown inside the [try] block, be it the SDL
    initialisation, the screen, the surface or an exception raised during
    a turn of the loop, ends in its message on the error stream,
    [SDL_Quit] and exit code 0. *)
Theorem fatal_errors_exit_0 (argv : list string) (ticks : list Tick) :
  (forall code out,
      main read sdl_init_ok video_mode_ok surface_ok seconds fps argv ticks
      = Exited code out ->
      (code = 1 /\ exists m, initial_resolution read argv = inl m /\
                            out = [Cerr m]) \/
      (code = 0 /\ exists r, initial_resolution read argv = inr r)) /\
  (forall w h,
      initial_resolution read argv = inr (w, h) ->
      (forall e s,
          try_block sdl_init_ok video_mode_ok surface_ok seconds fps w h ticks
                    initial_state = Thrown e s ->
          main read sdl_init_ok video_mode_ok surface_ok seconds fps argv ticks
          = Exited 0 (trace s ++ [Cerr (catch_message e); SdlQuit])) /\
      (sdl_init_ok = false ->
       main read sdl_init_ok video_mode_ok surface_ok seconds fps argv ticks
       = Exited 0 [CoutHelp; SdlInit;
                   Cerr (error_what "Unable to init SDL"); SdlQuit]) /\
      (sdl_init_ok = true -> video_mode_ok w h = false ->
       main read sdl_init_ok video_mode_ok surface_ok seconds fps argv ticks
       = Exited 0 [CoutHelp; SdlInit; SetVideoMode w h;
                   Cerr (error_what "Unable to set video mode"); SdlQuit]) /\
      (sdl_init_ok = true -> video_mode_ok w h = true ->
       surface_ok w h = false ->
       main read sdl_init_ok video_mode_ok surface_ok seconds fps argv ticks
       = Exited 0 [CoutHelp; SdlInit; SetVideoMode w h; CreateRGBSurface w h;
                   Cerr (error_what "Unable to create surface"); SdlQuit]) /\
      (sdl_init_ok = true -> video_mode_ok w h = true ->
       surface_ok w h = true ->
       forall t rest e,
         ticks = t :: rest -> tick_raised t = Some e ->
         main read sdl_init_ok video_mode_ok surface_ok seconds fps argv ticks
         = Exited 0 [CoutHelp; SdlInit; SetVideoMode w h;
                     CreateRGBSurface w h; CreateThread;
                     Cerr (catch_message e); SdlQuit])).
Proof.
  split.
  - intros code out. unfold main.
    destruct (initial_resolution read argv) as [m|[w h]].
    + intros [= <- <-]. left. split; [reflexivity|].
      exists m. split; reflexivity.
    + destruct (try_block _ _ _ _ _ w h ticks initial_state) as [[|] s|e s];
        intros E; try discriminate E; injection E as <- _;
        right; (split; [reflexivity|]); eexists; reflexivity.
  - intros w h Hres. unfold main. rewrite Hres. repeat split.
    + intros e s ->. reflexivity.
    + intros E. rewrite (setup_init_fails w h ticks E). reflexivity.
    + intros E1 E2. rewrite (setup_screen_fails w h ticks E1 E2). reflexivity.
    + intros E1 E2 E3.
      destruct (setup_surface_fails w h ticks E1 E2 E3) as (s & -> & ->).
      reflexivity.
    + intros E1 E2 E3 t rest e -> E4.
      rewrite (first_tick_raises w h t rest e E1 E2 E3 E4). reflexivity.
Qed.

(** what [main] does with one argument, for any reader of the argument *)
Lemma argument_unreadable (prog arg : string) (ticks : list Tick) :
  read arg = None ->
  main read sdl_init_ok video_mode_ok surface_ok seconds fps [prog; arg] ticks
  = Exited 1 [Cerr parse_error].
Proof. intros E. unfold main, initial_resolution. rewrite E. reflexivity. Qed.

Lemma argument_invalid (prog arg : string) (w h : Z) (ticks : list Tick) :
  read arg = Some (w, h) -> w <= 0 \/ h < 0 ->
  main read sdl_init_ok video_mode_ok surface_ok seconds fps [prog; arg] ticks
  = Exited 1 [Cerr (invalid_resolution w h)].
Proof.
  intros E Hbad. unfold main, initial_resolution.
  rewrite E, (check_resolution_rejects w h Hbad). reflexivity.
Qed.

Lemma argument_accepted (prog arg : string) (w h : Z) :
  read arg = Some (w, h) -> 0 < w -> 0 <= h ->
  sdl_init_ok = true -> video_mode_ok w h = true -> surface_ok w h = true ->
  main read sdl_init_ok video_mode_ok surface_ok seconds fps [prog; arg] []
  = Running (trace (running_state w h)) /\
  g_surface (shared (running_state w h)) = Some (new_surface w h).
Proof.
  intros E Hw Hh E1 E2 E3. split; [|reflexivity].
  unfold main, initial_resolution.
  rewrite E, (check_resolution_accepts w h Hw Hh).
  rewrite (setup_ok w h [] E1 E2 E3). reflexivity.
Qed.

Lemma no_argument (prog : string) :
  sdl_init_ok = true -> video_mode_ok 128 128 = true ->
  surface_ok 128 128 = true ->
  main read sdl_init_ok video_mode_ok surface_ok seconds fps [prog] []
  = Running (trace (running_state 128 128)) /\
  g_surface (shared (running_state 128 128)) = Some (new_surface 128 128).
Proof.
  intros E1 E2 E3. split; [|reflexivity].
  unfold main.
  change (initial_resolution read [prog])
    with (@inr Message (Z * Z) (128, 128)).
  cbv iota beta. rewrite (setup_ok 128 128 [] E1 E2 E3). reflexivity.
Qed.
End MainProofs.

Lemma fatal_errors_exit_0_witness :
  main read_resolution false always_ok always_ok no_seconds no_fps
       ["sample"%string] []
  = Exited 0 [CoutHelp; SdlInit; Cerr (error_what "Unable to init SDL");
              SdlQuit].
Proof.
  destruct (fatal_errors_exit_0 read_resolution false always_ok always_ok
                                no_seconds no_fps ["sample"%string] [])
    as [_ Hcaught].
  destruct (Hcaught 128 128 eq_refl) as (_ & Hinit & _).
  exact (Hinit eq_refl).
Defined.

(** C5: an argument that cannot be read, or one read as a width of at
    most 0 or a negative height, ends [main] with code 1 and only the
    error message printed; an accepted one becomes the size of the screen
    and of the surface.  With the reader of the specification, "abc" and
    "0x10" end with code 1, "64x32" starts with a 64 by 32 surface, and no
    argument starts with 128 by 128. *)
Theorem command_line_resolution {T : Type} `{Scalar T}
        (sdl_init_ok : bool) (video_mode_ok surface_ok : Z -> Z -> bool)
        (seconds : Z -> T -> T) (fps : Z -> T) (prog : string)
        (ticks : list Tick) :
  (forall read arg,
      read arg = None ->
      main read sdl_init_ok video_mode_ok surface_ok seconds fps
           [prog; arg] ticks
      = Exited 1 [Cerr parse_error]) /\
  (forall read arg w h,
      read arg = Some (w, h) -> w <= 0 \/ h < 0 ->
      main read sdl_init_ok video_mode_ok surface_ok seconds fps
           [prog; arg] ticks
      = Exited 1 [Cerr (invalid_resolution w h)]) /\
  (forall read arg w h,
      read arg = Some (w, h) -> 0 < w -> 0 <= h ->
      sdl_init_ok = true -> video_mode_ok w h = true ->
      surface_ok w h = true ->
      main read sdl_init_ok video_mode_ok surface_ok seconds fps
           [prog; arg] []
      = Running [CoutHelp; SdlInit; SetVideoMode w h; CreateRGBSurface w h;
                 CreateThread]) /\
  main read_resolution sdl_init_ok video_mode_ok surface_ok seconds fps
       [prog; "abc"%string] ticks
  = Exited 1 [Cerr parse_error] /\
  main read_resolution sdl_init_ok video_mode_ok surface_ok seconds fps
       [prog; "0x10"%string] ticks
  = Exited 1 [Cerr (invalid_resolution 0 10)] /\
  (sdl_init_ok = true -> video_mode_ok 64 32 = true ->
   surface_ok 64 32 = true ->
   main read_resolution sdl_init_ok video_mode_ok surface_ok seconds fps
        [prog; "64x32"%string] []
   = Running [CoutHelp; SdlInit; SetVideoMode 64 32; CreateRGBSurface 64 32;
              CreateThread]) /\
  (sdl_init_ok = true -> video_mode_ok 128 128 = true ->
   surface_ok 128 128 = true ->
   forall read,
     main read sdl_init_ok video_mode_ok surface_ok seconds fps [prog] []
     = Running [CoutHelp; SdlInit; SetVideoMode 128 128;
                CreateRGBSurface 128 128; CreateThread]).
Proof.
  split; [intros read arg E; apply argument_unreadable; exact E|].
  split; [intros read arg w h E Hbad; apply argument_invalid; assumption|].
  split.
  { intros read arg w h E Hw Hh E1 E2 E3.
    exact (proj1 (argument_accepted read _ _ _ _ _ prog arg w h
                                    E Hw Hh E1 E2 E3)). }
  split; [apply argument_unreadable; reflexivity|].
  split; [apply argument_invalid; [reflexivity|left; lia]|].
  split.
  - intros E1 E2 E3.
    exact (proj1 (argument_accepted read_resolution _ _ _ _ _ prog
                                    "64x32"%string 64 32 eq_refl
                                    ltac:(lia) ltac:(lia) E1 E2 E3)).
  - intros E1 E2 E3 read.
    exact (proj1 (no_argument read _ _ _ _ _ prog E1 E2 E3)).
Qed.

Lemma command_line_resolution_witness :
  main read_resolution true always_ok always_ok no_seconds no_fps
       ["sample"%string; "64x32"%string] []
  = Running [CoutHelp; SdlInit; SetVideoMode 64 32; CreateRGBSurface 64 32;
             CreateThread].
Proof.
  destruct (command_line_resolution true always_ok always_ok no_seconds no_fps
                                    "sample"%string [])
    as (_ & _ & _ & _ & _ & Hstart & _).
  exact (Hstart eq_refl eq_refl eq_refl).
Defined.

(** ** The handshake protocol: mutual exclusion on the surface *)

Lemma handshake_inv_start : handshake_inv protocol_start = true.
Proof. reflexivity. Qed.

Ltac case_flags :=
  repeat match goal with
         | f : Flags |- _ => destruct f as [[] [] []]
         | b : bool |- _ => destruct b
         | m : option Thread |- _ => destruct m as [[]|]
         end.

(** every step of either thread keeps the invariant *)
Lemma handshake_inv_step (s s' : Protocol) (a : Access) :
  handshake_inv s = true -> transition s a s' -> handshake_inv s' = true.
Proof.
  intros Hinv Hstep. inversion Hstep; subst;
    try match goal with w : WorkerPc |- _ => destruct w end;
    try match goal with m : MainPc |- _ => destruct m end;
    case_flags; cbn in *; congruence.
Qed.

Lemma reachable_inv (s : Protocol) : reachable s -> handshake_inv s = true.
Proof.
  induction 1 as [|s a s' _ IH Hstep].
  - exact handshake_inv_start.
  - exact (handshake_inv_step s s' a IH Hstep).
Qed.

(** the window is entered: the render thread publishes a frame and waits,
    the display loop finds it *)
Lemma window_reachable : reachable window_state /\ in_window window_state = true.
Proof.
  split; [|reflexivity].
  pose proof reach_start as R. unfold protocol_start in R.
  apply (fun r => reach_step _ _ _ r (w_scan_over _ _ _)) in R.
  apply (fun r => reach_step _ _ _ r (w_lock _ _)) in R.
  apply (fun r => reach_step _ _ _ r (w_frame_ready (p_flags protocol_start) _ _ eq_refl)) in R.
  apply (fun r => reach_step _ _ _ r (w_signal _ _ _)) in R.
  apply (fun r => reach_step _ _ _ r (w_wait _ _ _)) in R.
  apply (fun r => reach_step _ _ _ r (m_poll_over _ _ _ _)) in R.
  apply (fun r => reach_step _ _ _ r (m_lock _ _ _)) in R.
  apply (fun r => reach_step _ _ _ r (m_acquire (p_flags window_state) _ _ false eq_refl eq_refl)) in R.
  exact R.
Qed.

(** C1: in every state the two threads can reach, a step of the render
    thread that writes pixels is taken outside the consumer's window and
    with [g_frameReady] clear, that is, after the start of the thread or a
    consumed signal and before the frame is published; and throughout the
    window the render thread is blocked inside [SDL_CondWait]. *)
Theorem render_thread_never_writes_in_window (s : Protocol) :
  reachable s ->
  (forall s', transition s WritePixels s' ->
              in_window s = false /\ g_frameReady (p_flags s) = false) /\
  (in_window s = true -> p_worker s = W_waiting).
Proof.
  intros Hreach. pose proof (reachable_inv s Hreach) as Hinv. split.
  - intros s' Hstep. inversion Hstep; subst.
    unfold handshake_inv, in_window in *. cbn in *.
    destruct m as [| | | | | | | |b [] |b [] | | |]; case_flags;
      cbn in *; split; congruence.
  - destruct s as [f mu w m]. unfold handshake_inv, in_window in *. cbn in *.
    destruct m as [| | | | | | | |b [] |b [] | | |]; try discriminate;
      intros _; destruct w; case_flags; cbn in *; congruence.
Qed.

Lemma render_thread_never_writes_in_window_witness :
  (forall s', transition protocol_start WritePixels s' ->
              in_window protocol_start = false /\
              g_frameReady (p_flags protocol_start) = false) /\
  (in_window window_state = true -> p_worker window_state = W_waiting).
Proof.
  split.
  - exact (proj1 (render_thread_never_writes_in_window protocol_start
                                                       reach_start)).
  - exact (proj2 (render_thread_never_writes_in_window
                    window_state (proj1 window_reachable))).
Defined.

(** ** Aligned scratch arrays *)

Lemma alignPtr_round_down (k p : Z) :
  0 <= k -> 0 <= p -> p + 2 ^ k < 2 ^ 64 ->
  alignPtr (2 ^ k) p = 2 ^ k * ((p + 2 ^ k) / 2 ^ k).
Proof.
  intros Hk Hp Hhi. unfold alignPtr, u64.
  assert (0 < 2 ^ k) by (apply Z.pow_pos_nonneg; lia).
  rewrite (Z.mod_small (p + 2 ^ k)) by lia.
  rewrite <- (Z.land_ones (Z.lnot _)) by lia.
  replace (2 ^ k - 1) with (Z.ones k) by (rewrite Z.ones_equiv; lia).
  rewrite (Z.land_comm (Z.lnot _)), Z.land_assoc.
  rewrite Z.land_ones by lia. rewrite (Z.mod_small (p + 2 ^ k)) by lia.
  rewrite <- Z.ldiff_land, Z.ldiff_ones_r by lia.
  rewrite Z.shiftl_mul_pow2, Z.shiftr_div_pow2 by lia. lia.
Qed.

Lemma alignPtr_bounds (k p : Z) :
  0 <= k -> 0 <= p -> p + 2 ^ k < 2 ^ 64 ->
  p < alignPtr (2 ^ k) p <= p + 2 ^ k /\ alignPtr (2 ^ k) p mod 2 ^ k = 0.
Proof.
  intros Hk Hp Hhi. rewrite (alignPtr_round_down k p Hk Hp Hhi).
  assert (HA : 0 < 2 ^ k) by (apply Z.pow_pos_nonneg; lia).
  pose proof (Z.div_mod (p + 2 ^ k) (2 ^ k) ltac:(lia)) as D.
  pose proof (Z.mod_pos_bound (p + 2 ^ k) (2 ^ k) HA) as B.
  split; [lia|]. rewrite Z.mul_comm. apply Z.mod_mul. lia.
Qed.

(** X1: for an alignment that is a power of two, [alignPtr] returns the
    least multiple of the alignment strictly above the pointer; a pointer
    that is aligned already is moved up by one whole alignment. *)
Theorem alignPtr_least_above (k p : Z) :
  0 <= k -> 0 <= p -> p + 2 ^ k < 2 ^ 64 ->
  alignPtr (2 ^ k) p mod 2 ^ k = 0 /\
  p < alignPtr (2 ^ k) p /\
  (forall q, q mod 2 ^ k = 0 -> p < q -> alignPtr (2 ^ k) p <= q) /\
  (p mod 2 ^ k = 0 -> alignPtr (2 ^ k) p = p + 2 ^ k).
Proof.
  intros Hk Hp Hhi.
  destruct (alignPtr_bounds k p Hk Hp Hhi) as [Hb Hm].
  assert (HA : 0 < 2 ^ k) by (apply Z.pow_pos_nonneg; lia).
  assert (Hleast : forall q, q mod 2 ^ k = 0 -> p < q ->
                             alignPtr (2 ^ k) p <= q).
  { intros q Hq Hpq.
    apply Z.mod_divide in Hm; [|lia]. apply Z.mod_divide in Hq; [|lia].
    destruct Hm as [a Ha]. destruct Hq as [b Hb'].
    rewrite Ha in *. subst q. apply Z.mul_le_mono_nonneg_r; [lia|].
    destruct (Z.le_gt_cases a b) as [|Hgt]; [assumption|exfalso].
    assert (b * 2 ^ k + 1 * 2 ^ k <= a * 2 ^ k)
      by (rewrite <- Z.mul_add_distr_r; apply Z.mul_le_mono_nonneg_r; lia).
    lia. }
  repeat split; try assumption; try lia.
  intros Hal. apply Z.le_antisymm; [lia|].
  cut (p + 2 ^ k <= alignPtr (2 ^ k) p); [lia|]. clear Hm.
  enough (E : (p + 2 ^ k) mod 2 ^ k = 0).
  { apply Z.mod_divide in E; [|lia]. destruct E as [c Hc].
    pose proof (alignPtr_round_down k p Hk Hp Hhi) as R. rewrite R, Hc.
    rewrite Z.div_mul by lia. lia. }
  rewrite <- Z.add_mod_idemp_l, Hal by lia. cbn [Z.add]. apply Z.mod_same; lia.
Qed.

Lemma alignPtr_least_above_witness :
  alignPtr (2 ^ 4) 32 mod 2 ^ 4 = 0 /\
  32 < alignPtr (2 ^ 4) 32 /\
  (forall q, q mod 2 ^ 4 = 0 -> 32 < q -> alignPtr (2 ^ 4) 32 <= q) /\
  (32 mod 2 ^ 4 = 0 -> alignPtr (2 ^ 4) 32 = 32 + 2 ^ 4).
Proof. apply (alignPtr_least_above 4 32); [lia | lia | reflexivity]. Defined.

(** X2: the three lane arrays of [renderThread] are aligned, follow each
    other without overlap and lie inside the blob they are carved from,
    when the alignment is a power of two of at least [sizeof(unsigned)]. *)
Theorem render_arrays_fit (k scalar_count blob : Z) :
  2 <= k -> 0 <= scalar_count -> 0 <= blob ->
  blob + render_blob_size (2 ^ k) scalar_count < 2 ^ 64 ->
  let '(pr, pg, pb) := render_arrays (2 ^ k) scalar_count blob in
  blob < pr /\ pr + 4 * scalar_count < pg /\ pg + 4 * scalar_count < pb /\
  pb + 4 * scalar_count <= blob + render_blob_size (2 ^ k) scalar_count /\
  pr mod 2 ^ k = 0 /\ pg mod 2 ^ k = 0 /\ pb mod 2 ^ k = 0.
Proof.
  intros Hk HN Hb Hhi. unfold render_arrays, render_blob_size in *.
  assert (HA : 0 < 2 ^ k) by (apply Z.pow_pos_nonneg; lia).
  assert (H4 : 2 ^ k = 4 * (2 ^ k / 4)).
  { replace k with (2 + (k - 2)) by lia. rewrite Z.pow_add_r by lia.
    change (2 ^ 2) with 4. rewrite (Z.mul_comm 4), Z.div_mul by lia. lia. }
  set (A := 2 ^ k) in *.
  destruct (alignPtr_bounds k blob) as [B1 M1]; try lia. fold A in B1, M1.
  set (pr := alignPtr A blob) in *.
  destruct (alignPtr_bounds k (pr + 4 * scalar_count)) as [B2 M2]; try lia.
  fold A in B2, M2. set (pg := alignPtr A (pr + 4 * scalar_count)) in *.
  destruct (alignPtr_bounds k (pg + 4 * scalar_count)) as [B3 M3]; try lia.
  fold A in B3, M3. set (pb := alignPtr A (pg + 4 * scalar_count)) in *.
  repeat split; try assumption; lia.
Qed.

Lemma render_arrays_fit_witness :
  let '(pr, pg, pb) := render_arrays (2 ^ 4) 4 8 in
  8 < pr /\ pr + 4 * 4 < pg /\ pg + 4 * 4 < pb /\
  pb + 4 * 4 <= 8 + render_blob_size (2 ^ 4) 4 /\
  pr mod 2 ^ 4 = 0 /\ pg mod 2 ^ 4 = 0 /\ pb mod 2 ^ 4 = 0.
Proof. apply (render_arrays_fit 4 4 8); [lia | lia | lia | reflexivity]. Defined.

(** X3: the five lane arrays of [sample] are aligned, follow each other
    without overlap and lie inside the blob they are carved from, for
    every alignment that is a power of two. *)
Theorem sample_arrays_fit (k scalar_count blob : Z) :
  0 <= k -> 0 <= scalar_count -> 0 <= blob ->
  blob + sample_blob_size (2 ^ k) scalar_count < 2 ^ 64 ->
  let '(pindex, pr, pg, pb, pa) := sample_arrays (2 ^ k) scalar_count blob in
  blob < pindex /\ pindex + 4 * scalar_count < pr /\
  pr + 4 * scalar_count < pg /\ pg + 4 * scalar_count < pb /\
  pb + 4 * scalar_count < pa /\
  pa + 4 * scalar_count <= blob + sample_blob_size (2 ^ k) scalar_count /\
  pindex mod 2 ^ k = 0 /\ pr mod 2 ^ k = 0 /\ pg mod 2 ^ k = 0 /\
  pb mod 2 ^ k = 0 /\ pa mod 2 ^ k = 0.
Proof.
  intros Hk HN Hb Hhi. unfold sample_arrays, sample_blob_size in *.
  assert (HA : 0 < 2 ^ k) by (apply Z.pow_pos_nonneg; lia).
  set (A := 2 ^ k) in *.
  destruct (alignPtr_bounds k blob) as [B0 M0]; try lia. fold A in B0, M0.
  set (pindex := alignPtr A blob) in *.
  destruct (alignPtr_bounds k (pindex + 4 * scalar_count)) as [B1 M1]; try lia.
  fold A in B1, M1. set (pr := alignPtr A (pindex + 4 * scalar_count)) in *.
  destruct (alignPtr_bounds k (pr + 4 * scalar_count)) as [B2 M2]; try lia.
  fold A in B2, M2. set (pg := alignPtr A (pr + 4 * scalar_count)) in *.
  destruct (alignPtr_bounds k (pg + 4 * scalar_count)) as [B3 M3]; try lia.
  fold A in B3, M3. set (pb := alignPtr A (pg + 4 * scalar_count)) in *.
  destruct (alignPtr_bounds k (pb + 4 * scalar_count)) as [B4 M4]; try lia.
  fold A in B4, M4. set (pa := alignPtr A (pb + 4 * scalar_count)) in *.
  repeat split; try assumption; lia.
Qed.

Lemma sample_arrays_fit_witness :
  let '(pindex, pr, pg, pb, pa) := sample_arrays (2 ^ 5) 8 100 in
  100 < pindex /\ pindex + 4 * 8 < pr /\
  pr + 4 * 8 < pg /\ pg + 4 * 8 < pb /\ pb + 4 * 8 < pa /\
  pa + 4 * 8 <= 100 + sample_blob_size (2 ^ 5) 8 /\
  pindex mod 2 ^ 5 = 0 /\ pr mod 2 ^ 5 = 0 /\ pg mod 2 ^ 5 = 0 /\
  pb mod 2 ^ 5 = 0 /\ pa mod 2 ^ 5 = 0.
Proof. apply (sample_arrays_fit 5 8 100); [lia | lia | lia | reflexivity]. Defined.


(** ** The render thread: what a scan writes *)

Section RenderContent.
Context {T : Type} `{Scalar T}.
Variable scalar_count : Z.
Variable shader : vec2 T -> vec4 T.
Variable cancelDraw : Z -> bool.

Lemma store_lanes_content (colors : list (vec4 T)) :
  forall (ptr : Z) (mem : list Z) (ptr' : Z) (mem' : list Z),
    store_lanes colors ptr mem = Some (ptr', mem') ->
    ptr' = ptr + 3 * Z.of_nat (List.length colors) /\
    (forall o, o < ptr \/ ptr + 3 * Z.of_nat (List.length colors) <= o ->
               load_byte mem' o = load_byte mem o) /\
    (forall i c, nth_error colors i = Some c ->
       load_byte mem' (ptr + 3 * Z.of_nat i) = quantize (cr c) /\
       load_byte mem' (ptr + 3 * Z.of_nat i + 1) = quantize (cg c) /\
       load_byte mem' (ptr + 3 * Z.of_nat i + 2) = quantize (cb c)).
Proof.
  induction colors as [|c0 rest IH]; intros ptr mem ptr' mem' E.
  - cbn in E. injection E as <- <-. split; [cbn [List.length]; lia|].
    split; [reflexivity|].
    intros [|i] c Hn; discriminate Hn.
  - cbn [store_lanes] in E.
    destruct (store_byte mem ptr (quantize (cr c0))) as [m1|] eqn:E1;
      [|discriminate].
    destruct (store_byte m1 (ptr + 1) (quantize (cg c0))) as [m2|] eqn:E2;
      [|discriminate].
    destruct (store_byte m2 (ptr + 2) (quantize (cb c0))) as [m3|] eqn:E3;
      [|discriminate].
    destruct (IH _ _ _ _ E) as (Hptr & Hframe & Hcont).
    assert (Hthree : forall o, o < ptr \/ ptr + 3 <= o ->
                               load_byte m3 o = load_byte mem o).
    { intros o Ho.
      rewrite (load_store_other _ _ _ _ o E3) by lia.
      rewrite (load_store_other _ _ _ _ o E2) by lia.
      apply (load_store_other _ _ _ _ o E1). lia. }
    split; [cbn [List.length]; lia|]. split.
    + intros o Ho. cbn [List.length] in Ho.
      rewrite Hframe by lia. apply Hthree. lia.
    + intros [|i] c Hn.
      * cbn in Hn. injection Hn as <-.
        replace (ptr + 3 * Z.of_nat 0) with ptr by lia.
        rewrite !Hframe by lia.
        destruct (store_lanes_rgb c0 ptr mem (ptr + 3) m3) as (_ & R & G & B).
        { cbn [store_lanes]. rewrite E1, E2, E3. reflexivity. }
        auto.
      * cbn [nth_error] in Hn. destruct (Hcont i c Hn) as (R & G & B).
        replace (ptr + 3 * Z.of_nat (S i)) with (ptr + 3 + 3 * Z.of_nat i)
          by lia.
        auto.
Qed.

Lemma batch_coords_nth (x : Z) (fy : T) (i : Z) :
  0 <= i < scalar_count ->
  nth_error (map shader (batch_coords scalar_count x fy)) (Z.to_nat i)
  = Some (shader (mk_vec2 (of_int x + of_int i)%glsl fy)).
Proof.
  intros Hi. unfold batch_coords, lanes. rewrite !map_map.
  rewrite nth_error_map.
  rewrite (nth_error_nth' _ O) by (rewrite length_seq; lia).
  rewrite seq_nth by lia. cbn [option_map Nat.add]. rewrite Z2Nat.id by lia.
  reflexivity.
Qed.

Lemma row_loop_content (w y base : Z) (fy : T) :
  0 < scalar_count <= w ->
  forall (fuel : nat) (x : Z) (mem : list Z) (log : list (Invocation T))
         (mem' : list Z) (log' : list (Invocation T)),
    0 <= x ->
    row_loop scalar_count shader fuel w y fy x (base + 3 * x) mem log
    = Ok (mem', log') ->
    (forall c, 0 <= c < x -> shaded scalar_count shader fy mem base c) ->
    (forall c, 0 <= c < w -> shaded scalar_count shader fy mem' base c) /\
    (forall o, o < base \/ base + 3 * w <= o ->
               load_byte mem' o = load_byte mem o) /\
    (exists l, log' = log ++ l /\ forall inv, In inv l -> inv_row inv = y).
Proof.
  intros HN. induction fuel as [|fuel IH];
    intros x mem log mem' log' Hx E Hdone; [discriminate E|].
  cbn [row_loop] in E.
  destruct (Z.ltb_spec x w) as [Hlt|Hge].
  - pose proof (clamp_batch_shift scalar_count w x (base + 3 * x) Hlt) as Hc.
    destruct (clamp_batch (w - scalar_count) x (base + 3 * x)) as [x1 ptr1].
    destruct Hc as (Hx1 & Hptr & Hshift).
    assert (Hp : ptr1 = base + 3 * x1) by lia. subst ptr1.
    destruct (store_lanes (map shader (batch_coords scalar_count x1 fy))
                          (base + 3 * x1) mem) as [[ptr2 mem2]|] eqn:Es;
      [|discriminate E].
    destruct (store_lanes_content _ _ _ _ _ Es) as (Hp2 & Hframe & Hcont).
    rewrite length_map, batch_coords_length in Hframe, Hp2.
    replace ptr2 with (base + 3 * (x1 + scalar_count)) in E by lia.
    apply IH in E; [|lia|].
    + destruct E as (Hall & Hfr & l & -> & Hrows). split; [exact Hall|].
      split.
      * intros o Ho. rewrite Hfr by exact Ho. apply Hframe. lia.
      * eexists (_ :: l). rewrite <- app_assoc. split; [reflexivity|].
        intros inv [<-|Hin]; [reflexivity|exact (Hrows inv Hin)].
    + intros c Hc.
      destruct (Z_lt_le_dec c x1) as [Hold|Hnew].
      * destruct (Hdone c) as (x0 & i & Hx0 & Hi & Hsum & R & G & B); [lia|].
        exists x0, i. repeat split; try assumption; try lia;
          rewrite Hframe by lia; assumption.
      * exists x1, (c - x1).
        destruct (Hcont (Z.to_nat (c - x1)) _
                        (batch_coords_nth x1 fy (c - x1) ltac:(lia)))
          as (R & G & B).
        rewrite Z2Nat.id in R, G, B by lia.
        replace (base + 3 * x1 + 3 * (c - x1)) with (base + 3 * c)
          in R, G, B by lia.
        repeat split; try lia; assumption.
  - injection E as <- <-. split; [intros c Hc; apply Hdone; lia|].
    split; [reflexivity|]. exists []. rewrite app_nil_r.
    split; [reflexivity|intros inv []].
Qed.

Lemma shaded_same (fy : T) (mem mem' : list Z) (base c : Z) :
  (forall o, base + 3 * c <= o < base + 3 * c + 3 ->
             load_byte mem' o = load_byte mem o) ->
  shaded scalar_count shader fy mem base c ->
  shaded scalar_count shader fy mem' base c.
Proof.
  intros Hsame (x & i & Hx & Hi & Hsum & R & G & B). cbv zeta in R, G, B.
  exists x, i. cbv zeta. rewrite !Hsame by lia.
  repeat split; assumption || lia.
Qed.

(** the rows [y .. stop - 1] a run of the loop over the scanlines has
    drawn, [stop] being the row at which it ended *)
Lemma scan_loop_content (w h pitch : Z) :
  0 < scalar_count <= w -> 3 * w <= pitch ->
  forall (fuel : nat) (y : Z) (mem : list Z) (log : list (Invocation T))
         (mem' : list Z) (log' : list (Invocation T)),
    0 <= y ->
    scan_loop scalar_count shader cancelDraw fuel w h pitch y mem log
    = Ok (mem', log') ->
    exists stop,
      y <= stop /\
      (forall r, y <= r < stop -> cancelDraw r = false /\ r < h) /\
      (cancelDraw stop = true \/ h <= stop) /\
      (forall r c, y <= r < stop -> 0 <= c < w ->
         shaded scalar_count shader (of_int (h - 1 - r)) mem'
                (r * pitch) c) /\
      (forall o, (forall r, y <= r < stop ->
                            o < r * pitch \/ r * pitch + 3 * w <= o) ->
                 load_byte mem' o = load_byte mem o) /\
      (exists l, log' = log ++ l /\
                 forall inv, In inv l -> y <= inv_row inv < stop).
Proof.
  intros HN Hpitch. induction fuel as [|fuel IH];
    intros y mem log mem' log' Hy E; [discriminate E|].
  cbn [scan_loop] in E.
  destruct (cancelDraw y) eqn:Hcancel; cbn [negb andb] in E.
  - injection E as <- <-. exists y. split; [lia|].
    split; [intros r Hr; lia|]. split; [left; exact Hcancel|].
    split; [intros r c Hr; lia|]. split; [reflexivity|].
    exists []. rewrite app_nil_r. split; [reflexivity|intros inv []].
  - destruct (Z.ltb_spec y h) as [Hlt|Hge].
    + replace (y * pitch) with (y * pitch + 3 * 0) in E by lia.
      destruct (row_loop scalar_count shader (S (Z.to_nat w)) w y
                         (of_int (h - 1 - y)) 0 (y * pitch + 3 * 0) mem log)
        as [[m1 l1]| |] eqn:Er; try discriminate E.
      destruct (row_loop_content w y (y * pitch) (of_int (h - 1 - y)) HN
                                 _ _ _ _ _ _ (Z.le_refl 0) Er)
        as (Hrow & Hfr1 & la & -> & Hla); [intros c Hc; lia|].
      assert (Hy1 : 0 <= y + 1) by lia.
      destruct (IH _ _ _ _ _ Hy1 E)
        as (stop & Hs & Hnone & Hend & Hrows & Hfr & lb & -> & Hlb).
      exists stop. split; [lia|]. split.
      { intros r Hr. destruct (Z.eq_dec r y) as [->|Hne];
          [split; assumption|apply Hnone; lia]. }
      split; [exact Hend|]. split.
      { intros r c Hr Hc. destruct (Z.eq_dec r y) as [->|Hne].
        - apply (shaded_same _ m1); [|apply Hrow; exact Hc].
          intros o Ho. apply Hfr. intros r' Hr'. left.
          assert ((y + 1) * pitch <= r' * pitch)
            by (apply Z.mul_le_mono_nonneg_r; lia).
          lia.
        - apply Hrows; [lia|exact Hc]. }
      split.
      { intros o Ho. rewrite Hfr by (intros r Hr; apply Ho; lia).
        apply Hfr1. apply Ho. lia. }
      exists (la ++ lb). rewrite app_assoc. split; [reflexivity|].
      intros inv Hin. apply in_app_iff in Hin as [Hin|Hin].
      * rewrite (Hla inv Hin). lia.
      * specialize (Hlb inv Hin). lia.
    + injection E as <- <-. exists y. split; [lia|].
      split; [intros r Hr; lia|]. split; [right; exact Hge|].
      split; [intros r c Hr; lia|]. split; [reflexivity|].
      exists []. rewrite app_nil_r. split; [reflexivity|intros inv []].
Qed.

(** X4: a scan of a well-formed surface that no cancel interrupts returns,
    keeps the size of the pixel array, leaves in every pixel of every row
    the quantized colour of the shader at that pixel's column and at
    [gl_FragCoord.y = h - 1 - row], red, green, blue, and changes no byte
    outside the pixels of the rows (the padding of a row is kept). *)
Theorem scan_draws_every_pixel (bmp : SDL_Surface) :
  well_formed scalar_count bmp ->
  (forall r, 0 <= r < surf_h bmp -> cancelDraw r = false) ->
  exists mem log,
    renderThread_scan scalar_count shader cancelDraw bmp = Ok (mem, log) /\
    List.length mem = List.length (surf_pixels bmp) /\
    (forall r c, 0 <= r < surf_h bmp -> 0 <= c < surf_w bmp ->
       shaded scalar_count shader (of_int (surf_h bmp - 1 - r)) mem
              (r * surf_pitch bmp) c) /\
    (forall o, (forall r, 0 <= r < surf_h bmp ->
                          o < r * surf_pitch bmp \/
                          r * surf_pitch bmp + 3 * surf_w bmp <= o) ->
               load_byte mem o = load_byte (surf_pixels bmp) o).
Proof.
  intros Hwf Hnone.
  destruct (scan_ok scalar_count shader cancelDraw bmp Hwf)
    as (mem & log & E & L & _).
  destruct Hwf as (HN & Hh & Hpitch & Hsize).
  exists mem, log. split; [exact E|]. split; [exact L|].
  unfold renderThread_scan in E.
  destruct (scan_loop_content _ _ _ HN Hpitch _ _ _ _ _ _ (Z.le_refl 0) E)
    as (stop & Hs & Hrun & Hend & Hrows & Hfr & _).
  assert (stop = surf_h bmp) as ->.
  { destruct (Z_lt_le_dec stop (surf_h bmp)) as [Hlt|Hge].
    - destruct Hend as [Hc|Hc]; [|lia].
      rewrite (Hnone stop) in Hc by lia. discriminate.
    - destruct (Z.eq_dec stop (surf_h bmp)) as [->|Hne]; [reflexivity|].
      destruct (Hrun (surf_h bmp)); lia. }
  split; [exact Hrows|exact Hfr].
Qed.

(** X5: in the build without OpenMP, which [scan_loop] embeds (one loop
    over the rows, [heightStart = 0], [heightStep = 1]): when
    [g_cancelDraw] is first seen set at the loop test of scanline [y0],
    the scan returns having invoked the shader for the rows above [y0]
    only; these rows are drawn in full, and no byte from row [y0] on is
    changed. *)
Theorem cancel_stops_scan (bmp : SDL_Surface) (y0 : Z) :
  well_formed scalar_count bmp ->
  0 <= y0 < surf_h bmp -> cancelDraw y0 = true ->
  (forall r, 0 <= r < y0 -> cancelDraw r = false) ->
  exists mem log,
    renderThread_scan scalar_count shader cancelDraw bmp = Ok (mem, log) /\
    (forall inv, In inv log -> 0 <= inv_row inv < y0) /\
    (forall r c, 0 <= r < y0 -> 0 <= c < surf_w bmp ->
       shaded scalar_count shader (of_int (surf_h bmp - 1 - r)) mem
              (r * surf_pitch bmp) c) /\
    (forall o, y0 * surf_pitch bmp <= o ->
               load_byte mem o = load_byte (surf_pixels bmp) o).
Proof.
  intros Hwf Hy0 Hcancel Hnone.
  destruct (scan_ok scalar_count shader cancelDraw bmp Hwf)
    as (mem & log & E & L & _).
  destruct Hwf as (HN & Hh & Hpitch & Hsize).
  exists mem, log. split; [exact E|].
  unfold renderThread_scan in E.
  destruct (scan_loop_content _ _ _ HN Hpitch _ _ _ _ _ _ (Z.le_refl 0) E)
    as (stop & Hs & Hrun & Hend & Hrows & Hfr & l & El & Hl).
  assert (stop = y0) as ->.
  { destruct (Z_lt_le_dec stop y0) as [Hlt|Hge].
    - destruct Hend as [Hc|Hc]; [|lia].
      rewrite (Hnone stop) in Hc by lia. discriminate.
    - destruct (Z.eq_dec stop y0) as [->|Hne]; [reflexivity|].
      destruct (Hrun y0) as [Hc _]; [lia|]. congruence. }
  cbn [app] in El. subst l.
  split; [exact Hl|]. split; [exact Hrows|].
  intros o Ho. apply Hfr. intros r Hr. right.
  assert ((r + 1) * surf_pitch bmp <= y0 * surf_pitch bmp)
    by (apply Z.mul_le_mono_nonneg_r; lia).
  lia.
Qed.
End RenderContent.

Lemma scan_draws_every_pixel_witness :
  exists mem log,
    renderThread_scan 2 (constant_shader red) never (new_surface 5 2)
    = Ok (mem, log) /\
    List.length mem = List.length (surf_pixels (new_surface 5 2)) /\
    (forall r c, 0 <= r < 2 -> 0 <= c < 5 ->
       shaded 2 (constant_shader red) (of_int (2 - 1 - r)) mem (r * 16) c) /\
    (forall o, (forall r, 0 <= r < 2 ->
                          o < r * 16 \/ r * 16 + 3 * 5 <= o) ->
               load_byte mem o = load_byte (surf_pixels (new_surface 5 2)) o).
Proof.
  assert (Hwf : well_formed 2 (new_surface 5 2)).
  { unfold well_formed. vm_compute.
    repeat split; try reflexivity; intro E; discriminate E. }
  exact (scan_draws_every_pixel 2 (constant_shader red) never
                                (new_surface 5 2) Hwf
                                (fun _ _ => eq_refl)).
Defined.

Lemma cancel_stops_scan_witness :
  exists mem log,
    renderThread_scan 2 (constant_shader red) (cancel_from 1)
                      (new_surface 5 2)
    = Ok (mem, log) /\
    (forall inv, In inv log -> 0 <= inv_row inv < 1) /\
    (forall r c, 0 <= r < 1 -> 0 <= c < 5 ->
       shaded 2 (constant_shader red) (of_int (2 - 1 - r)) mem (r * 16) c) /\
    (forall o, 1 * 16 <= o ->
               load_byte mem o = load_byte (surf_pixels (new_surface 5 2)) o).
Proof.
  assert (Hwf : well_formed 2 (new_surface 5 2)).
  { unfold well_formed. vm_compute.
    repeat split; try reflexivity; intro E; discriminate E. }
  apply (cancel_stops_scan 2 (constant_shader red) (cancel_from 1)
                           (new_surface 5 2) 1 Hwf).
  - vm_compute. split; [intro E; discriminate E | reflexivity].
  - reflexivity.
  - intros r Hr. unfold cancel_from. apply Z.leb_gt. lia.
Defined.


(** ** The sampler: decoding a texel *)

Lemma lor_shiftl_add (a b n : Z) :
  0 <= n -> 0 <= a < 2 ^ n -> Z.lor a (Z.shiftl b n) = a + b * 2 ^ n.
Proof.
  intros Hn Ha. rewrite Z.shiftl_mul_pow2 by lia.
  rewrite <- Z.lxor_lor, <- Z.add_nocarry_lxor; try reflexivity.
  all: rewrite <- (Z.mod_small a (2 ^ n)) by lia;
    rewrite <- Z.land_ones by lia;
    rewrite <- Z.land_assoc, (Z.land_comm (Z.ones n)), Z.land_ones by lia;
    rewrite Z.mod_mul by lia; apply Z.land_0_r.
Qed.

Lemma gather_three (mem : list Z) (base b0 b1 b2 : Z) :
  load_byte mem base = b0 -> load_byte mem (base + 1) = b1 ->
  load_byte mem (base + 2) = b2 ->
  0 <= b0 < 256 -> 0 <= b1 < 256 -> 0 <= b2 < 256 ->
  gather_pixel mem base 3 0 0 = b0 + 256 * b1 + 65536 * b2.
Proof.
  intros E0 E1 E2 H0 H1 H2. cbn [gather_pixel].
  replace (base + 0) with base by lia.
  replace (base + (0 + 1)) with (base + 1) by lia.
  replace (base + (0 + 1 + 1)) with (base + 2) by lia.
  rewrite E0, E1, E2.
  change (0 * 8) with 0. change ((0 + 1) * 8) with 8.
  change ((0 + 1 + 1) * 8) with 16.
  rewrite Z.shiftl_0_r, Z.lor_0_l. unfold u32.
  change (2 ^ 32) with 4294967296.
  rewrite (Z.mod_small b0) by lia.
  rewrite (lor_shiftl_add b0 b1 8) by (change (2 ^ 8) with 256; lia).
  change (2 ^ 8) with 256.
  rewrite (Z.mod_small (b0 + b1 * 256)) by lia.
  rewrite (lor_shiftl_add _ b2 16) by (change (2 ^ 16) with 65536; lia).
  change (2 ^ 16) with 65536.
  rewrite Z.mod_small by lia. lia.
Qed.

Lemma masked_byte (pixel n : Z) :
  0 <= n ->
  Z.shiftr (Z.land pixel (Z.shiftl 255 n)) n = (pixel / 2 ^ n) mod 256.
Proof.
  intros Hn. rewrite Z.shiftr_land, Z.shiftr_shiftl_l by lia.
  rewrite Z.sub_diag, Z.shiftl_0_r. change 255 with (Z.ones 8).
  rewrite Z.land_ones, Z.shiftr_div_pow2 by lia. reflexivity.
Qed.

Lemma rgb_channels (b0 b1 b2 : Z) :
  0 <= b0 < 256 -> 0 <= b1 < 256 -> 0 <= b2 < 256 ->
  let pixel := b0 + 256 * b1 + 65536 * b2 in
  Z.shiftr (Z.land pixel 255) 0 = b0 /\
  Z.shiftr (Z.land pixel 65280) 8 = b1 /\
  Z.shiftr (Z.land pixel 16711680) 16 = b2.
Proof.
  intros H0 H1 H2 pixel.
  change 255 with (Z.shiftl 255 0).
  change 65280 with (Z.shiftl 255 8).
  change 16711680 with (Z.shiftl 255 16).
  rewrite !masked_byte by lia. unfold pixel.
  change (2 ^ 0) with 1. change (2 ^ 8) with 256. change (2 ^ 16) with 65536.
  repeat split; Z.div_mod_to_equations; lia.
Qed.

Lemma load_byte_range (mem : list Z) (off : Z) :
  Forall is_byte mem -> is_byte (load_byte mem off).
Proof.
  intros Hall. unfold load_byte. destruct (off <? 0); [unfold is_byte; lia|].
  destruct (nth_in_or_default (Z.to_nat off) mem 0) as [Hin| ->].
  - rewrite Forall_forall in Hall. exact (Hall _ Hin).
  - unfold is_byte; lia.
Qed.

(** X7: on a surface in the 24-bit format of [SDL_CreateRGBSurface] as
    [main] calls it, [sample] assembles the three bytes at the texel's
    offset into the pixel and takes them apart again as red, green and
    blue: the colour is (b0, b1, b2, 255) / 255, clamped, with the alpha
    the format lacks set to 255. *)
Theorem fetch_rgb24 {T : Type} `{Scalar T} (img : SDL_Surface) (uv : vec2 T) :
  surf_format img = rgb24 -> Forall is_byte (surf_pixels img) ->
  let x := u32 (to_uint (vx uv * of_int (surf_w img - 1) + half)%glsl) in
  let y := u32 (to_uint (vy uv * of_int (surf_h img - 1) + half)%glsl) in
  let index := u32 (y * surf_pitch img + x * 3) in
  fetch img uv
  = vec4_clamp
      (vec4_div_s
         (mk_vec4 (of_int (load_byte (surf_pixels img) index))
                  (of_int (load_byte (surf_pixels img) (index + 1)))
                  (of_int (load_byte (surf_pixels img) (index + 2)))
                  (of_int 255))
         (of_int 255))
      c_zero c_one.
Proof.
  intros Hfmt Hbytes x y index. unfold fetch. rewrite Hfmt.
  cbn [BytesPerPixel Rmask Gmask Bmask Amask Rshift Gshift Bshift Ashift rgb24].
  fold x y index. change (Z.to_nat 3) with 3%nat. change (0 =? 0) with true.
  cbv iota.
  pose proof (load_byte_range _ index Hbytes) as H0.
  pose proof (load_byte_range _ (index + 1) Hbytes) as H1.
  pose proof (load_byte_range _ (index + 2) Hbytes) as H2.
  rewrite (gather_three _ index _ _ _ eq_refl eq_refl eq_refl H0 H1 H2).
  destruct (rgb_channels _ _ _ H0 H1 H2) as (-> & -> & ->).
  reflexivity.
Qed.

Lemma fetch_rgb24_witness :
  fetch black_white (quarters 4 0)
  = vec4_clamp
      (vec4_div_s
         (mk_vec4 (Binary32.of_Z 255) (Binary32.of_Z 255) (Binary32.of_Z 255)
                  (Binary32.of_Z 255))
         (Binary32.of_Z 255))
      c_zero c_one.
Proof.
  assert (Hbytes : Forall is_byte (surf_pixels black_white))
    by (repeat constructor; vm_compute; intro E; discriminate E).
  pose proof (fetch_rgb24 black_white (quarters 4 0) eq_refl Hbytes) as Hf.
  cbv zeta in Hf. rewrite Hf. vm_compute. reflexivity.
Defined.


(** ** Saturation in binary32 *)

Section Binary32Proofs.
Import Binary32.

Lemma clamp_cases (x : float) :
  clamp x (of_Z 0) (of_Z 1)
  = if SFltb x (of_Z 0) then of_Z 0
    else if SFltb (of_Z 1) x then of_Z 1 else x.
Proof.
  unfold clamp, g_max, g_min. cbn [fltb scalar].
  destruct (SFltb x (of_Z 0)) eqn:E0; [reflexivity|].
  reflexivity.
Qed.

Lemma above_one_not_below_zero (x : float) :
  SFltb (of_Z 1) x = true -> SFltb x (of_Z 0) = false.
Proof.
  destruct x as [s|s| |s m e]; try destruct s; vm_compute; congruence.
Qed.

(** X6: in binary32 the byte stored for a channel below 0 is 0 and the
    byte stored for a channel above 1 is 255. *)
Theorem quantize_saturates (c : float) :
  (SFltb c (of_Z 0) = true -> quantize c = 0) /\
  (SFltb (of_Z 1) c = true -> quantize c = 255).
Proof.
  unfold quantize. change c_zero with (of_Z 0). change c_one with (of_Z 1).
  rewrite clamp_cases. split; intros Hc.
  - rewrite Hc. vm_compute. reflexivity.
  - rewrite (above_one_not_below_zero c Hc), Hc. vm_compute. reflexivity.
Qed.

(** X8: in binary32 the checkerboard of a sampler without image takes two
    values only, for every coordinate, NaN and infinities included: red
    where both components of [uv] lie on the same side of 0.5, green where
    they do not. *)
Theorem checkers_two_colours (uv : vec2 float) :
  checkers uv
  = if Bool.eqb (SFltb (vx uv) half) (SFltb (vy uv) half) then red else green.
Proof.
  unfold checkers, vec2_step, map2, step. cbn [vx vy fltb scalar].
  unfold float in *.
  destruct (SFltb (vx uv) half), (SFltb (vy uv) half); vm_compute; reflexivity.
Qed.

Lemma clamp_idempotent (x : float) :
  clamp (clamp x (of_Z 0) (of_Z 1)) (of_Z 0) (of_Z 1)
  = clamp x (of_Z 0) (of_Z 1).
Proof.
  rewrite (clamp_cases x).
  destruct (SFltb x (of_Z 0)) eqn:E0; [vm_compute; reflexivity|].
  destruct (SFltb (of_Z 1) x) eqn:E1; [vm_compute; reflexivity|].
  rewrite clamp_cases, E0, E1. reflexivity.
Qed.

Lemma clamp_range (x : float) :
  SFltb (clamp x (of_Z 0) (of_Z 1)) (of_Z 0) = false /\
  SFltb (of_Z 1) (clamp x (of_Z 0) (of_Z 1)) = false.
Proof.
  rewrite (clamp_cases x).
  destruct (SFltb x (of_Z 0)) eqn:E0; [vm_compute; split; reflexivity|].
  destruct (SFltb (of_Z 1) x) eqn:E1; [vm_compute; split; reflexivity|].
  split; assumption.
Qed.

(** X9: in binary32 the Clamp wrap yields components that are neither
    below 0 nor above 1, it is idempotent, and a Clamp sampler returns at
    a wrapped coordinate what it returns at the coordinate itself. *)
Theorem clamp_wrap_saturates (s : sampler2D) (coord : vec2 float) :
  m_wrapMode s = Clamp ->
  let uv := wrap Clamp coord in
  SFltb (vx uv) (of_Z 0) = false /\ SFltb (of_Z 1) (vx uv) = false /\
  SFltb (vy uv) (of_Z 0) = false /\ SFltb (of_Z 1) (vy uv) = false /\
  wrap Clamp uv = uv /\
  sample s uv = sample s coord.
Proof.
  intros Hm uv. unfold uv, sample. rewrite Hm.
  unfold wrap, vec2_clamp, map2. cbn [vx vy of_int scalar].
  rewrite !clamp_idempotent.
  destruct (clamp_range (vx coord)) as [Hx0 Hx1].
  destruct (clamp_range (vy coord)) as [Hy0 Hy1].
  repeat split; assumption.
Qed.
End Binary32Proofs.

Lemma quantize_saturates_witness :
  quantize (Binary32.lit (-1) 0) = 0 /\ quantize (Binary32.lit 2 0) = 255.
Proof.
  split.
  - exact (proj1 (quantize_saturates (Binary32.lit (-1) 0)) eq_refl).
  - exact (proj2 (quantize_saturates (Binary32.lit 2 0)) eq_refl).
Defined.

Lemma clamp_wrap_saturates_witness :
  wrap Clamp (wrap Clamp (quarters 5 (-3))) = wrap Clamp (quarters 5 (-3)) /\
  sample (no_image Clamp) (wrap Clamp (quarters 5 (-3)))
  = sample (no_image Clamp) (quarters 5 (-3)).
Proof.
  destruct (clamp_wrap_saturates (no_image Clamp) (quarters 5 (-3)) eq_refl)
    as (_ & _ & _ & _ & Hidem & Hsample).
  split; [exact Hidem | exact Hsample].
Defined.


(** ** The display loop: events, quit, invariants and the frame counter *)

Lemma triple_bind {S A B : Type} (P : S -> Prop) (c : M S A)
      (Q : A -> S -> Prop) (k : A -> M S B) (R : B -> S -> Prop)
      (E : S -> Prop) :
  triple P c Q E -> (forall a, triple (Q a) (k a) R E) ->
  triple P (bind c k) R E.
Proof.
  intros Hc Hk s HP. unfold bind. specialize (Hc s HP).
  destruct (c s) as [a s1|e s1]; [exact (Hk a s1 Hc) | exact Hc].
Qed.

Lemma count_app (p : Effect -> bool) (a b : list Effect) :
  count p (a ++ b) = count p a + count p b.
Proof. unfold count. rewrite filter_app, length_app. lia. Qed.

Section LoopProofs.
Context {T : Type} `{Scalar T}.
Variable video_mode_ok : Z -> Z -> bool.
Variable surface_ok : Z -> Z -> bool.
Variable seconds : Z -> T -> T.
Variable fps : Z -> T.

Ltac run_main :=
  unfold handle_event, handshake, resizeOrCreateScreen, resizeOrCreateSurface,
    track_mouse, publish, emit, when, modify, gets, bind, ret, throw.

(** what one event does *)
Lemma handle_event_effect (ev : SDL_Event) (b : bool) (s : MainState T) :
  match handle_event video_mode_ok ev b s with
  | Normal b' s' =>
      b' = b || is_space_event ev /\
      g_quit (flags (shared s'))
      = g_quit (flags (shared s)) || is_quit_event ev /\
      (g_cancelDraw (flags (shared s)) = true \/ is_quit_event ev = true ->
       g_cancelDraw (flags (shared s')) = true) /\
      (is_button_down ev = false -> mousePressed (locals s) = false ->
       mousePressed (locals s') = false /\
       mousePosition (locals s') = mousePosition (locals s))
  | Thrown e s' =>
      exists w h, ev = SDL_VIDEORESIZE w h /\ video_mode_ok w h = false
  end /\
  (let s' := final_state (handle_event video_mode_ok ev b s) in
   g_frameReady (flags (shared s')) = g_frameReady (flags (shared s)) /\
   g_surface (shared s') = g_surface (shared s) /\
   sandbox (shared s') = sandbox (shared s) /\
   frame (locals s') = frame (locals s) /\
   time (locals s') = time (locals s) /\
   exists out, trace s' = trace s ++ out /\
               forall e, In e out -> exists w h, e = SetVideoMode w h).
Proof.
  destruct s as [[[q c r] sb surf] [[[sw sh]|] ts fr tm mp pr mpr lf] tr].
  all: destruct ev as [w h| |[]|x y|x y| |]; run_main;
    cbn -[Z.eqb];
    try (match goal with
         | |- context [negb (w =? ?a) || negb (h =? ?b)] =>
             destruct (negb (w =? a) || negb (h =? b))
         end; cbn;
         try (destruct (video_mode_ok w h) eqn:E; cbn));
    try (destruct mpr; cbn);
    rewrite ?orb_false_r, ?orb_true_r;
    (split;
     [ repeat split; try reflexivity; try discriminate; eauto;
       intros [E'|E']; (exact E' || discriminate E')
     | repeat split;
       first [ exists []; split; [symmetry; apply app_nil_r|intros ? []]
             | eexists; split; [reflexivity|];
               intros ? [<-|[]]; eauto ] ]).
Qed.

(** the event loop as a whole *)
Lemma poll_events_effect (evs : list SDL_Event) :
  forall (b : bool) (s : MainState T),
  match poll_events video_mode_ok evs b s with
  | Normal b' s' =>
      b' = b || existsb is_space_event evs /\
      g_quit (flags (shared s'))
      = g_quit (flags (shared s)) || existsb is_quit_event evs /\
      (g_cancelDraw (flags (shared s)) = true \/
       existsb is_quit_event evs = true ->
       g_cancelDraw (flags (shared s')) = true) /\
      (existsb is_button_down evs = false ->
       mousePressed (locals s) = false ->
       mousePressed (locals s') = false /\
       mousePosition (locals s') = mousePosition (locals s))
  | Thrown e s' =>
      exists w h, In (SDL_VIDEORESIZE w h) evs /\ video_mode_ok w h = false
  end /\
  (let s' := final_state (poll_events video_mode_ok evs b s) in
   g_frameReady (flags (shared s')) = g_frameReady (flags (shared s)) /\
   g_surface (shared s') = g_surface (shared s) /\
   sandbox (shared s') = sandbox (shared s) /\
   frame (locals s') = frame (locals s) /\
   time (locals s') = time (locals s) /\
   exists out, trace s' = trace s ++ out /\
               forall e, In e out -> exists w h, e = SetVideoMode w h).
Proof.
  induction evs as [|ev rest IH]; intros b s.
  - cbn. rewrite !orb_false_r.
    split; [repeat split; try assumption;
            intros [E|E]; (exact E || discriminate E)|].
    do 5 (split; [reflexivity|]).
    exists []. split; [symmetry; apply app_nil_r|intros ? []].
  - cbn [poll_events existsb]. unfold bind.
    pose proof (handle_event_effect ev b s) as [Hev Hfr].
    destruct (handle_event video_mode_ok ev b s) as [b1 s1|e s1].
    + destruct Hev as (-> & Hq & Hc & Hm). cbn [final_state] in Hfr.
      destruct Hfr as (Hr & Hsurf & Hsb & Hframe & Htime & out1 & Htr & Hout).
      specialize (IH (b || is_space_event ev) s1). destruct IH as [IH1 IH2].
      split.
      * destruct (poll_events video_mode_ok rest _ s1) as [b2 s2|e s2].
        -- destruct IH1 as (-> & Hq2 & Hc2 & Hm2).
           split; [symmetry; apply orb_assoc|].
           split; [rewrite Hq2, Hq; symmetry; apply orb_assoc|].
           split.
           { intros [Hc0|Hqe]; apply Hc2.
             - left. apply Hc. left. exact Hc0.
             - apply orb_true_iff in Hqe as [Hqe|Hqe];
                 [left; apply Hc; right; exact Hqe|right; exact Hqe]. }
           intros Hnb Hnp. apply orb_false_iff in Hnb as [Hnb1 Hnb2].
           destruct (Hm Hnb1 Hnp) as [Hp1 Hpos1].
           destruct (Hm2 Hnb2 Hp1) as [Hp2 Hpos2].
           split; [assumption|congruence].
        -- destruct IH1 as (w & h & Hin & Hbad).
           exists w, h. split; [right; assumption|assumption].
      * cbv zeta in IH2 |- *.
        destruct IH2 as (Hr2 & Hsurf2 & Hsb2 & Hframe2 & Htime2
                         & out2 & Htr2 & Hout2).
        repeat split; try congruence.
        exists (out1 ++ out2). split.
        -- rewrite Htr2, Htr. symmetry. apply app_assoc.
        -- intros e Hin. apply in_app_or in Hin as [Hin|Hin]; auto.
    + destruct Hev as (w & h & -> & Hbad). split.
      * exists w, h. split; [left; reflexivity|assumption].
      * exact Hfr.
Qed.

(** no resize of the turn fails: the event loop returns *)
Lemma poll_events_returns (evs : list SDL_Event) (b : bool) (s : MainState T) :
  (forall w h, In (SDL_VIDEORESIZE w h) evs -> video_mode_ok w h = true) ->
  exists b' s', poll_events video_mode_ok evs b s = Normal b' s'.
Proof.
  intros Hok. pose proof (poll_events_effect evs b s) as [Hev _].
  destruct (poll_events video_mode_ok evs b s) as [b' s'|e s'].
  - eauto.
  - destruct Hev as (w & h & Hin & Hbad). rewrite (Hok w h Hin) in Hbad.
    discriminate Hbad.
Qed.

(** X11: when the event loop of a turn returns, [blitNow] is set exactly
    if it was set before or a space key was among the events, [g_quit] is
    set exactly if it was set before or a quit event or an escape key was
    among them; [g_frameReady] and the frame counter are as before. *)
Theorem event_loop_flags (evs : list SDL_Event) (b : bool)
        (s : MainState T) (b' : bool) (s' : MainState T) :
  poll_events video_mode_ok evs b s = Normal b' s' ->
  (b' = true <-> b = true \/ In (SDL_KEYDOWN SDLK_SPACE) evs) /\
  (g_quit (flags (shared s')) = true <->
   g_quit (flags (shared s)) = true \/ In SDL_QUIT evs \/
   In (SDL_KEYDOWN SDLK_ESCAPE) evs) /\
  g_frameReady (flags (shared s')) = g_frameReady (flags (shared s)) /\
  frame (locals s') = frame (locals s).
Proof.
  intros E. pose proof (poll_events_effect evs b s) as [Hev Hfr].
  rewrite E in Hev, Hfr. cbn [final_state] in Hfr.
  destruct Hev as (-> & Hq & _ & _).
  destruct Hfr as (Hr & _ & _ & Hframe & _).
  split; [|split; [|split; assumption]].
  - rewrite orb_true_iff, existsb_exists. split.
    + intros [Hb|(ev & Hin & Hsp)]; [left; assumption|right].
      destruct ev as [| |[]| | | |]; try discriminate Hsp. exact Hin.
    + intros [Hb|Hin]; [left; assumption|right].
      exists (SDL_KEYDOWN SDLK_SPACE). split; [assumption|reflexivity].
  - rewrite Hq, orb_true_iff, existsb_exists. split.
    + intros [Hb|(ev & Hin & Hsp)]; [left; assumption|right].
      destruct ev as [| |[]| | | |]; try discriminate Hsp; auto.
    + intros [Hb|[Hin|Hin]]; [left; assumption| |]; right; eexists;
        (split; [eassumption|reflexivity]).
Qed.

(** X12: with the mouse button up and no button-down event in the turn,
    the event loop leaves the mouse position as it was, whatever motion
    events arrive. *)
Theorem mouse_needs_button (evs : list SDL_Event) (b : bool)
        (s : MainState T) (b' : bool) (s' : MainState T) :
  poll_events video_mode_ok evs b s = Normal b' s' ->
  mousePressed (locals s) = false ->
  (forall x y, ~ In (SDL_MOUSEBUTTONDOWN x y) evs) ->
  mousePosition (locals s') = mousePosition (locals s) /\
  mousePressed (locals s') = false.
Proof.
  intros E Hp Hno. pose proof (poll_events_effect evs b s) as [Hev _].
  rewrite E in Hev. destruct Hev as (_ & _ & _ & Hm).
  assert (Hnb : existsb is_button_down evs = false).
  { destruct (existsb is_button_down evs) eqn:Ex; [|reflexivity].
    apply existsb_exists in Ex as (ev & Hin & Hd).
    destruct ev; try discriminate Hd. exfalso. exact (Hno _ _ Hin). }
  destruct (Hm Hnb Hp). split; assumption.
Qed.

(** the handshake block of a turn in which [g_quit] is set *)
Lemma handshake_quit (b : bool) (wait : WaitResult) (fc : Z)
      (s : MainState T) :
  g_quit (flags (shared s)) = true ->
  handshake surface_ok fps b wait fc s
  = Normal false
      {| shared := shared s; locals := locals s;
         trace := trace s ++ (if g_frameReady (flags (shared s))
                              then [SignalFrameReceived] else []) |}.
Proof.
  destruct s as [[[q c r] sb surf] l tr]. cbn. intros ->.
  run_main. cbn. destruct r; cbn; rewrite ?app_nil_r; reflexivity.
Qed.

Lemma display_loop_quit (ticks : list Tick) (s : MainState T) :
  g_quit (flags (shared s)) = true ->
  display_loop video_mode_ok surface_ok seconds fps ticks s = Normal true s.
Proof.
  intros Hq. destruct ticks; cbn [display_loop]; unfold bind, gets;
    rewrite Hq; reflexivity.
Qed.

Lemma display_loop_cons (t : Tick) (rest : list Tick) (s : MainState T) :
  g_quit (flags (shared s)) = false ->
  display_loop video_mode_ok surface_ok seconds fps (t :: rest) s
  = bind (iteration video_mode_ok surface_ok seconds fps t)
         (fun _ => display_loop video_mode_ok surface_ok seconds fps rest) s.
Proof.
  intros Hq. cbn [display_loop]. unfold bind at 1. unfold gets.
  rewrite Hq. reflexivity.
Qed.

(** a turn, once its events are handled *)
Lemma iteration_after_events (t : Tick) (s : MainState T) (b1 : bool)
      (s1 : MainState T) :
  tick_raised t = None ->
  poll_events video_mode_ok (tick_events t) false s = Normal b1 s1 ->
  iteration video_mode_ok surface_ok seconds fps t s
  = bind (when (tick_rendered t) (modify (with_flags publish_frame)))
      (fun _ =>
       bind (handshake surface_ok fps b1 (tick_wait t) (tick_frame_clock t))
         (fun doFlip =>
          bind (when doFlip
                  (bind (modify (with_locals
                                   (fun l => set_frame (frame l + 1) l)))
                        (fun _ => emit Flip)))
            (fun _ =>
             bind (emit CoutStatus)
               (fun _ =>
                modify (with_locals (fun l =>
                  set_time (fadd (time l)
                                 (seconds (tick_clock t) (timeScale l))) l))))))
      s1.
Proof.
  intros Hraise E. unfold iteration. rewrite Hraise.
  unfold bind at 1. unfold ret at 1. unfold bind at 1. rewrite E.
  reflexivity.
Qed.

(** X13: a turn in which a quit event or an escape key arrives, and in
    which no collaborator fails, is the last one: the loop is left with
    [g_quit] and [g_cancelDraw] set; the turn neither blits nor flips,
    whatever else happened in it (a forced preview, a frame ready), the
    frame counter, the surface and the published values stay as they
    were, and the consumed signal is raised exactly if a frame was
    ready. *)
Theorem quit_event_ends_loop (t : Tick) (rest : list Tick) (s : MainState T) :
  g_quit (flags (shared s)) = false ->
  tick_raised t = None ->
  (forall w h, In (SDL_VIDEORESIZE w h) (tick_events t) ->
               video_mode_ok w h = true) ->
  In SDL_QUIT (tick_events t) \/ In (SDL_KEYDOWN SDLK_ESCAPE) (tick_events t) ->
  exists s',
    display_loop video_mode_ok surface_ok seconds fps (t :: rest) s
    = Normal true s' /\
    g_quit (flags (shared s')) = true /\
    g_cancelDraw (flags (shared s')) = true /\
    frame (locals s') = frame (locals s) /\
    g_surface (shared s') = g_surface (shared s) /\
    sandbox (shared s') = sandbox (shared s) /\
    exists out,
      trace s' = trace s ++ out /\
      ~ In BlitSurface out /\ ~ In Flip out /\
      (In SignalFrameReceived out <->
       g_frameReady (flags (shared s)) || tick_rendered t = true).
Proof.
  intros Hq Hraise Hok Hev.
  assert (Hex : existsb is_quit_event (tick_events t) = true).
  { apply existsb_exists. destruct Hev as [Hin|Hin]; eexists;
      (split; [exact Hin|reflexivity]). }
  destruct (poll_events_returns (tick_events t) false s Hok) as (b1 & s1 & E).
  pose proof (poll_events_effect (tick_events t) false s) as [Hp Hfr].
  rewrite E in Hp, Hfr. cbn [final_state] in Hfr.
  destruct Hp as (_ & Hq1 & Hc1 & _).
  destruct Hfr as (Hr1 & Hsurf1 & Hsb1 & Hframe1 & _ & out1 & Htr1 & Hout1).
  rewrite Hex, orb_true_r in Hq1. specialize (Hc1 (or_intror Hex)).
  rewrite (display_loop_cons t rest s Hq). unfold bind at 1.
  rewrite (iteration_after_events t s b1 s1 Hraise E).
  destruct s1 as [[[q1 c1 r1] sb1 surf1] l1 tr1].
  cbn in Hq1, Hc1, Hr1, Hsurf1, Hsb1, Hframe1, Htr1. subst q1 c1 r1 surf1 sb1 tr1.
  destruct (tick_rendered t) eqn:Er;
    destruct (g_frameReady (flags (shared s))) eqn:Ers;
    unfold bind, when, modify, ret, emit; cbn -[display_loop handshake];
    rewrite handshake_quit by reflexivity;
    cbn -[display_loop];
    rewrite display_loop_quit by reflexivity.
  all: (eexists; split; [reflexivity|]); cbn.
  all: split; [reflexivity|]; split; [reflexivity|].
  all: split; [assumption|]; split; [reflexivity|]; split; [reflexivity|].
  all: rewrite <- ?app_assoc; (eexists; split; [reflexivity|]).
  all: assert (Hset : forall e, In e out1 ->
                 e <> BlitSurface /\ e <> Flip /\ e <> SignalFrameReceived)
      by (intros e Hin; destruct (Hout1 e Hin) as (w & h & ->);
          repeat split; discriminate).
  all: split;
    [intros Hin; apply in_app_or in Hin as [Hin|Hin];
     [destruct (Hset _ Hin) as (N & _ & _); apply N; reflexivity
     |cbn in Hin; intuition discriminate]|].
  all: split;
    [intros Hin; apply in_app_or in Hin as [Hin|Hin];
     [destruct (Hset _ Hin) as (_ & N & _); apply N; reflexivity
     |cbn in Hin; intuition discriminate]|].
  all: split;
    [intros Hin;
     first [reflexivity
           |apply in_app_or in Hin as [Hin|Hin];
            [destruct (Hset _ Hin) as (_ & _ & N); exfalso; apply N;
             reflexivity
            |cbn in Hin; intuition discriminate]]
    |intros Hr;
     first [discriminate Hr | apply in_or_app; right; cbn; auto]].
Qed.

(** *** Invariants of the display loop *)

Lemma loop_inv_weaken (s : MainState T) : loop_inv s -> loop_inv_thrown s.
Proof.
  intros Hs. pose proof Hs as (Hq & Hp & _).
  split; [exact Hq|]. split; [exact Hp|]. intros _ _. exact Hs.
Qed.

Lemma handle_event_inv (ev : SDL_Event) (b : bool) :
  triple loop_inv (handle_event video_mode_ok ev b) (fun _ => loop_inv)
         loop_inv_thrown.
Proof.
  intros s Hs.
  destruct s as [[[q c r] sb surf] [[[sw sh]|] ts fr tm mp pr mpr lf] tr];
    [|exfalso; destruct Hs as (_ & _ & Hscr & _); apply Hscr; reflexivity].
  unfold loop_inv, loop_inv_thrown in *. cbn in Hs.
  destruct Hs as (Hq & Hp & Hscr & surface & Hsurf & Hsize).
  destruct ev as [w h| |[]|x y|x y| |]; run_main;
    cbn -[Z.eqb];
    try (match goal with
         | |- context [negb (w =? ?a) || negb (h =? ?b)] =>
             destruct (negb (w =? a) || negb (h =? b))
         end; cbn;
         try (destruct (video_mode_ok w h) eqn:E; cbn));
    try (destruct mpr; cbn);
    (split; [auto|split; [auto|]]);
    first [ split; [intro E'; discriminate E'|];
            exists surface; split; [exact Hsurf|];
            first [exact Hsize | intro E'; discriminate E']
          | intros Hnull; exfalso; apply Hnull; reflexivity ].
Qed.

Lemma poll_events_inv (evs : list SDL_Event) :
  forall b, triple loop_inv (poll_events video_mode_ok evs b)
                   (fun _ => loop_inv) loop_inv_thrown.
Proof.
  induction evs as [|ev rest IH]; intros b.
  - intros s Hs. exact Hs.
  - cbn [poll_events]. eapply triple_bind; [apply handle_event_inv|].
    intros b1. apply IH.
Qed.

Lemma handshake_keeps_loop_inv (b : bool) (wait : WaitResult) (fc : Z) :
  triple loop_inv (handshake surface_ok fps b wait fc) (fun _ => loop_inv)
         loop_inv_thrown.
Proof.
  intros s Hs.
  destruct s as [[[q c r] sb surf] [[[sw sh]|] ts fr tm mp pr mpr lf] tr];
    [|exfalso; destruct Hs as (_ & _ & Hscr & _); apply Hscr; reflexivity].
  unfold loop_inv, loop_inv_thrown in *. cbn in Hs.
  destruct Hs as (Hq & Hp & Hscr & surface & Hsurf & Hsize).
  run_main.
  destruct q, b, r, wait, pr; cbn -[new_surface];
    try (match goal with
         | |- context [surface_ok ?a ?b] => destruct (surface_ok a b) eqn:E
         end; cbn -[new_surface]);
    (split; [auto; discriminate|split; [auto; discriminate|]]);
    first [ intros _ Hnull; exfalso; apply Hnull; reflexivity
          | split; [intro E'; discriminate E'|];
            first [ exists surface; split; [exact Hsurf|];
                    first [exact Hsize | intro E'; discriminate E']
                  | exists (new_surface sw sh); split; [reflexivity|];
                    intros _; repeat split; reflexivity ] ].
Qed.

Lemma iteration_inv (t : Tick) :
  triple loop_inv (iteration video_mode_ok surface_ok seconds fps t)
         (fun _ => loop_inv) loop_inv_thrown.
Proof.
  unfold iteration.
  eapply triple_bind with (Q := fun _ => loop_inv).
  { destruct (tick_raised t); intros s Hs;
      [exact (loop_inv_weaken s Hs) | exact Hs]. }
  intros _. eapply triple_bind; [apply poll_events_inv|]. intros b.
  eapply triple_bind with (Q := fun _ => loop_inv).
  { destruct (tick_rendered t); intros s Hs; exact Hs. }
  intros _. eapply triple_bind; [apply handshake_keeps_loop_inv|].
  intros doFlip.
  eapply triple_bind with (Q := fun _ => loop_inv).
  { destruct doFlip; intros s Hs; exact Hs. }
  intros _. eapply triple_bind with (Q := fun _ => loop_inv);
    [intros s Hs; exact Hs|].
  intros _ s Hs. exact Hs.
Qed.

Lemma display_loop_inv (ticks : list Tick) :
  triple loop_inv (display_loop video_mode_ok surface_ok seconds fps ticks)
         (fun _ => loop_inv) loop_inv_thrown.
Proof.
  induction ticks as [|t rest IH]; cbn [display_loop];
    (eapply triple_bind with (Q := fun _ => loop_inv);
     [intros s Hs; exact Hs|]); intros [|]; try (intros s Hs; exact Hs).
  eapply triple_bind; [apply iteration_inv|]. intros u. exact IH.
Qed.

(** X14: a run of the display loop that starts where [loop_inv] holds and
    returns, ends where it holds: [g_quit] and a pending resize imply
    [g_cancelDraw], [screen] and [g_surface] are not null, and outside a
    pending resize the surface and the published resolution have the size
    of the screen.  When the run ends in a failure the two implications
    on [g_cancelDraw] still hold, and the rest holds unless the failed
    call has left [screen] or [g_surface] null. *)
Theorem display_loop_keeps_surface_in_step (ticks : list Tick)
        (s : MainState T) :
  loop_inv s ->
  match display_loop video_mode_ok surface_ok seconds fps ticks s with
  | Normal _ s' => loop_inv s'
  | Thrown _ s' => loop_inv_thrown s'
  end.
Proof. intros Hs. exact (display_loop_inv ticks s Hs). Qed.

(** *** The frame counter *)

Lemma count_none (p : Effect -> bool) (out : list Effect) :
  (forall e, In e out -> p e = false) -> count p out = 0.
Proof.
  intros Hnone. unfold count.
  induction out as [|e out IH]; [reflexivity|].
  cbn [filter]. rewrite (Hnone e (or_introl eq_refl)).
  apply IH. intros e' Hin. apply Hnone. right. exact Hin.
Qed.

Lemma poll_events_count (evs : list SDL_Event) (b : bool) (k d : Z) :
  triple (frame_count k d) (poll_events video_mode_ok evs b)
         (fun _ => frame_count k d) (frame_count_thrown k d).
Proof.
  intros s [Hk Hd].
  pose proof (poll_events_effect evs b s) as [_ Hfr]. cbv zeta in Hfr.
  destruct Hfr as (_ & _ & _ & Hframe & _ & out & Htr & Hout).
  assert (Hf : count is_flip out = 0).
  { apply count_none. intros e Hin. destruct (Hout e Hin) as (w & h & ->).
    reflexivity. }
  assert (Hb : count is_blit out = 0).
  { apply count_none. intros e Hin. destruct (Hout e Hin) as (w & h & ->).
    reflexivity. }
  destruct (poll_events video_mode_ok evs b s) as [b' s'|e s'];
    cbn [final_state] in *; unfold frame_count, frame_count_thrown;
    rewrite Htr, !count_app, Hframe; lia.
Qed.

Lemma handshake_count (b : bool) (wait : WaitResult) (fc : Z) (k d : Z) :
  triple (frame_count k d) (handshake surface_ok fps b wait fc)
         (fun doFlip s =>
            frame_count k (d + if doFlip then 1 else 0) s)
         (frame_count_thrown k d).
Proof.
  intros s [Hk Hd].
  destruct s as [[[q c r] sb surf] [scr ts fr tm mp pr mpr lf] tr].
  cbn in Hk, Hd. run_main.
  destruct q, b, r, wait, pr; cbn -[new_surface];
    try (match goal with
         | |- context [surface_ok ?a ?b] => destruct (surface_ok a b) eqn:E
         end; cbn -[new_surface]);
    unfold frame_count, frame_count_thrown; cbn -[new_surface];
    rewrite ?count_app;
    repeat match goal with
           | |- context [count ?p [?e]] =>
               let v := eval cbv in (count p [e]) in
               change (count p [e]) with v
           end;
    lia.
Qed.

Lemma iteration_count (t : Tick) (k d : Z) :
  triple (frame_count k d) (iteration video_mode_ok surface_ok seconds fps t)
         (fun _ => frame_count k d) (frame_count_thrown k d).
Proof.
  unfold iteration.
  eapply triple_bind with (Q := fun _ => frame_count k d).
  { destruct (tick_raised t); intros s [Hk Hd]; cbn;
      unfold frame_count, frame_count_thrown; lia. }
  intros u. eapply triple_bind; [apply poll_events_count|]. intros b.
  eapply triple_bind with (Q := fun _ => frame_count k d).
  { destruct (tick_rendered t); intros s Hs; exact Hs. }
  intros u1. eapply triple_bind; [apply handshake_count|].
  intros doFlip.
  eapply triple_bind with (Q := fun _ => frame_count k d).
  { destruct doFlip; intros s [Hk Hd]; unfold frame_count;
      run_main; cbn; rewrite ?count_app;
      change (count is_flip [Flip]) with 1;
      change (count is_blit [Flip]) with 0; lia. }
  intros u2. eapply triple_bind with (Q := fun _ => frame_count k d).
  { intros s [Hk Hd]. unfold frame_count. run_main. cbn.
    rewrite !count_app. change (count is_flip [CoutStatus]) with 0.
    change (count is_blit [CoutStatus]) with 0. lia. }
  intros u3 s Hs. exact Hs.
Qed.

Lemma display_loop_count (ticks : list Tick) (k d : Z) :
  triple (frame_count k d)
         (display_loop video_mode_ok surface_ok seconds fps ticks)
         (fun _ => frame_count k d) (frame_count_thrown k d).
Proof.
  induction ticks as [|t rest IH]; cbn [display_loop];
    (eapply triple_bind with (Q := fun _ => frame_count k d);
     [intros s Hs; exact Hs|]); intros [|]; try (intros s Hs; exact Hs).
  eapply triple_bind; [apply iteration_count|]. intros u. exact IH.
Qed.

(** X15: over any run of the display loop the frame counter grows by the
    number of calls of [SDL_Flip]; when the loop returns there were as
    many blits as flips, and when it ends in a failure at most one blit
    is left without its flip. *)
Theorem frame_counts_flips (ticks : list Tick) (s : MainState T) :
  let flips tr := count is_flip tr in
  let blits tr := count is_blit tr in
  match display_loop video_mode_ok surface_ok seconds fps ticks s with
  | Normal _ s' =>
      frame (locals s') - frame (locals s)
      = flips (trace s') - flips (trace s) /\
      blits (trace s') - blits (trace s) = flips (trace s') - flips (trace s)
  | Thrown _ s' =>
      frame (locals s') - frame (locals s)
      = flips (trace s') - flips (trace s) /\
      0 <= (blits (trace s') - blits (trace s))
           - (flips (trace s') - flips (trace s)) <= 1
  end.
Proof.
  intros flips blits.
  pose proof (display_loop_count ticks _ _ s (conj eq_refl eq_refl)) as Hd.
  destruct (display_loop _ _ _ _ ticks s) as [b s'|e s'];
    destruct Hd as [Hk Hd]; unfold flips, blits; lia.
Qed.
End LoopProofs.


Lemma event_loop_flags_witness :
  let s' := final_state (poll_events always_ok quit_events false
                                     (running_state 64 32)) in
  g_quit (flags (shared s')) = true /\ frame (locals s') = 0.
Proof.
  destruct (event_loop_flags always_ok quit_events false
              (running_state 64 32) true
              (final_state (poll_events always_ok quit_events false
                                        (running_state 64 32)))
              eq_refl) as (_ & Hq & _ & Hframe).
  split; [|exact Hframe].
  apply Hq. right. left. right. right. left. reflexivity.
Defined.

Lemma mouse_needs_button_witness :
  let s' := final_state (poll_events always_ok quit_events false
                                     (running_state 64 32)) in
  mousePosition (locals s') = mousePosition (locals (running_state 64 32)) /\
  mousePressed (locals s') = false.
Proof.
  apply (mouse_needs_button always_ok quit_events false
           (running_state 64 32) true
           (final_state (poll_events always_ok quit_events false
                                     (running_state 64 32)))
           eq_refl eq_refl).
  intros x y [E|[E|[E|[]]]]; discriminate E.
Defined.

Lemma quit_event_ends_loop_witness :
  exists s',
    display_loop always_ok always_ok no_seconds no_fps
                 [quit_tick; frame_tick] (running_state 64 32)
    = Normal true s' /\
    g_quit (flags (shared s')) = true /\
    g_cancelDraw (flags (shared s')) = true /\
    frame (locals s') = 0.
Proof.
  destruct (quit_event_ends_loop always_ok always_ok no_seconds no_fps
              quit_tick [frame_tick] (running_state 64 32)
              eq_refl eq_refl (fun _ _ _ => eq_refl)
              (or_introl (or_intror (or_intror (or_introl eq_refl)))))
    as (s' & Hrun & Hq & Hc & Hframe & _).
  exists s'. repeat split; assumption.
Defined.

Lemma display_loop_keeps_surface_in_step_witness :
  match display_loop always_ok always_ok no_seconds no_fps
                     [frame_tick; quit_tick] (running_state 64 32) with
  | Normal _ s' => loop_inv s'
  | Thrown _ s' => loop_inv_thrown s'
  end /\
  match display_loop never_ok always_ok no_seconds no_fps
                     [resize_tick] (running_state 64 32) with
  | Normal _ s' => loop_inv s'
  | Thrown _ s' => loop_inv_thrown s'
  end.
Proof.
  assert (Hstart : loop_inv (running_state (T := Binary32.float) 64 32)).
  { unfold loop_inv. cbn -[new_surface].
    split; [intro E; discriminate E|]. split; [intro E; discriminate E|].
    split; [intro E; discriminate E|].
    exists (new_surface 64 32). split; [reflexivity|].
    intros _. repeat split; reflexivity. }
  split.
  - exact (display_loop_keeps_surface_in_step always_ok always_ok no_seconds
             no_fps [frame_tick; quit_tick] (running_state 64 32) Hstart).
  - exact (display_loop_keeps_surface_in_step never_ok always_ok no_seconds
             no_fps [resize_tick] (running_state 64 32) Hstart).
Defined.


(** ** The handshake protocol: mutual exclusion, quit and shutdown *)

(** a quit during the first scan, and the display loop's way from there to
    [SDL_WaitThread] *)
Lemma quit_state_reachable : reachable quit_state.
Proof.
  pose proof reach_start as R. unfold protocol_start in R.
  apply (fun r => reach_step _ _ _ r (m_event _ _ _ true _)) in R.
  apply (fun r => reach_step _ _ _ r (m_event_lock _ _ _ _)) in R.
  apply (fun r => reach_step _ _ _ r (m_event_flags _ _ _ _ _)) in R.
  exact R.
Qed.

Lemma join_state_reachable : reachable join_state.
Proof.
  pose proof quit_state_reachable as R. unfold quit_state in R.
  apply (fun r => reach_step _ _ _ r (m_poll_over _ _ _ _)) in R.
  apply (fun r => reach_step _ _ _ r (m_lock _ _ _)) in R.
  apply (fun r => reach_step _ _ _ r (m_quit (p_flags quit_state) _ _ _ eq_refl)) in R.
  apply (fun r => reach_step _ _ _ r (m_leave (p_flags quit_state) _ _ eq_refl)) in R.
  exact R.
Qed.

Lemma shutdown_inv_step (s s' : Protocol) (a : Access) :
  handshake_inv s && shutdown_inv s = true -> transition s a s' ->
  handshake_inv s' && shutdown_inv s' = true.
Proof.
  intros Hinv Hstep. inversion Hstep; subst;
    try match goal with w : WorkerPc |- _ => destruct w end;
    try match goal with m : MainPc |- _ => destruct m end;
    case_flags; cbn in *; congruence.
Qed.

Lemma reachable_shutdown_inv (s : Protocol) :
  reachable s -> handshake_inv s && shutdown_inv s = true.
Proof.
  induction 1 as [|s a s' _ IH Hstep].
  - reflexivity.
  - exact (shutdown_inv_step s s' a IH Hstep).
Qed.

(** X16: in every state the two threads can reach, at most one of them is
    inside a critical section of [g_frameHandshakeMutex], and the mutex is
    owned by a thread exactly while that thread is inside one. *)
Theorem critical_sections_exclude (s : Protocol) :
  reachable s ->
  worker_holds (p_worker s) && main_holds (p_main s) = false /\
  (worker_holds (p_worker s) = true <-> p_mutex s = Some RenderThread) /\
  (main_holds (p_main s) = true <-> p_mutex s = Some DisplayThread).
Proof.
  intros Hreach. pose proof (reachable_inv s Hreach) as Hinv.
  destruct s as [f mu w m]. unfold handshake_inv, mutex_inv in Hinv.
  cbn in *.
  destruct (worker_holds w), (main_holds m), mu as [[]|]; cbn in Hinv;
    try discriminate Hinv; repeat split; congruence.
Qed.

(** X17: in every reachable state with [g_quit] set, [g_cancelDraw] is
    set too, the render thread starts no further scanline, and [g_quit]
    stays set. *)
Theorem quit_stops_drawing (s : Protocol) :
  reachable s -> g_quit (p_flags s) = true ->
  g_cancelDraw (p_flags s) = true /\
  (forall s', ~ transition s WritePixels s') /\
  (forall a s', transition s a s' -> g_quit (p_flags s') = true).
Proof.
  intros Hreach Hq. pose proof (reachable_shutdown_inv s Hreach) as Hinv.
  assert (Hc : g_cancelDraw (p_flags s) = true).
  { destruct s as [f mu w m]. unfold shutdown_inv in Hinv. cbn in *.
    rewrite Hq in Hinv. destruct (g_cancelDraw f); [reflexivity|].
    cbn in Hinv. rewrite andb_false_r in Hinv. discriminate Hinv. }
  split; [exact Hc|]. split.
  - intros s' Hstep. inversion Hstep; subst. cbn in Hc. congruence.
  - intros a s' Hstep. clear Hinv Hreach.
    inversion Hstep; subst; cbn in *; try assumption;
      destruct q; cbn; first [assumption | reflexivity].
Qed.

(** X18: once the display loop has left its loop, every step either
    thread can take brings the end of [main] nearer; while the display
    loop is at [SDL_WaitThread] some step can be taken, so the render
    thread is never left blocked; and at most four steps remain. *)
Theorem shutdown_terminates (s : Protocol) :
  reachable s -> joining s = true ->
  (forall a s', transition s a s' ->
                joining s' = true /\
                (shutdown_steps s' < shutdown_steps s)%nat) /\
  (p_main s = M_join -> exists a s', transition s a s') /\
  (shutdown_steps s <= 4)%nat.
Proof.
  intros Hreach Hj. pose proof (reachable_shutdown_inv s Hreach) as Hinv.
  split; [|split].
  - intros a s' Hstep. inversion Hstep; subst;
      try match goal with w : WorkerPc |- _ => destruct w end;
      try match goal with m : MainPc |- _ => destruct m end;
      try discriminate Hj;
      case_flags; cbn in *; try discriminate;
      split; try reflexivity; lia.
  - intros Hm. destruct s as [f mu w m]. cbn in Hm. subst m.
    destruct w; case_flags; cbn in Hinv; try discriminate Hinv;
      do 2 eexists; econstructor; reflexivity.
  - destruct s as [f mu w m]. unfold shutdown_steps. cbn.
    destruct w, m; cbn; lia.
Qed.


(** X20: the handshake cannot deadlock: in every reachable state in which
    [main] has not returned, one of the two threads can take a step. *)
Theorem handshake_never_deadlocks (s : Protocol) :
  reachable s -> p_main s <> M_exit -> exists a s', transition s a s'.
Proof.
  intros Hreach Hne. pose proof (reachable_shutdown_inv s Hreach) as Hinv.
  destruct s as [f mu w m]. cbn in Hne.
  destruct m; try (exfalso; apply Hne; reflexivity);
    try solve [do 2 eexists; econstructor; reflexivity];
    destruct w; try solve [do 2 eexists; econstructor; reflexivity];
    case_flags; cbn in Hinv; try discriminate Hinv;
    solve [do 2 eexists; econstructor; reflexivity
          |do 2 eexists; eapply w_quit; reflexivity
          |do 2 eexists; eapply w_frame_ready; reflexivity
          |do 2 eexists; eapply w_resume_quit; reflexivity
          |do 2 eexists; eapply w_next_frame; reflexivity
          |do 2 eexists; eapply w_signal
          |do 2 eexists; eapply w_wait
          |do 2 eexists; eapply w_scan_over].
Qed.

Lemma critical_sections_exclude_witness :
  worker_holds (p_worker window_state) && main_holds (p_main window_state)
  = false /\
  p_mutex window_state = Some DisplayThread.
Proof.
  destruct (critical_sections_exclude window_state (proj1 window_reachable))
    as (Hex & _ & Hmain).
  split; [exact Hex | exact (proj1 Hmain eq_refl)].
Defined.

Lemma quit_stops_drawing_witness :
  g_cancelDraw (p_flags quit_state) = true /\
  forall s', ~ transition quit_state WritePixels s'.
Proof.
  destruct (quit_stops_drawing quit_state quit_state_reachable eq_refl)
    as (Hc & Hno & _).
  split; [exact Hc | exact Hno].
Defined.

Lemma shutdown_terminates_witness :
  (exists a s', transition join_state a s') /\
  (shutdown_steps join_state <= 4)%nat.
Proof.
  destruct (shutdown_terminates join_state join_state_reachable eq_refl)
    as (_ & Hstep & Hbound).
  split; [exact (Hstep eq_refl) | exact Hbound].
Defined.


Lemma handshake_never_deadlocks_witness :
  exists a s', transition join_state a s'.
Proof.
  apply (handshake_never_deadlocks join_state join_state_reachable).
  intro E. discriminate E.
Defined.
